(** * ArogyaAI: the session and conversation controller of [App.tsx]

    A shallow embedding of the React component [App] of
    [src/ArogyaAI/App.tsx]: its seven [useState] cells, the handlers
    [sendMessage], [pickImage], [signup] and [login], and the controls
    each screen renders.  Handlers are programs in a small monad that
    threads the component state and the token store, records every
    effect in program order and propagates JavaScript exceptions.

    Conventions of the model:
    - a handler is a closure: the state cells it reads are the values of
      the render that created it, passed here as arguments; the setters
      act on the current state, and [setChat] is always called with the
      updater [(prev) => [...prev, e]];
    - the network and the image picker are outside the program: a
      handler takes their answers as arguments;
    - AsyncStorage is a finite map from strings to strings; a read may
      reject, and the handler takes that answer as an argument too;
    - a handler runs to completion before the next user action. *)

From Stdlib Require Import String Ascii NArith List Lia Bool.
From stdpp Require Import base option list gmap.

Set Warnings "-register-all".
Local Open Scope N_scope.

(** ** JavaScript strings

    A JavaScript string is a sequence of UTF-16 code units. *)

Abbreviation code_unit := N (only parsing).
Abbreviation jsstring := (list N) (only parsing).

(** A string literal of the source (all of them are ASCII). *)
Definition lit (s : string) : jsstring :=
  map N_of_ascii (list_ascii_of_string s).

(** ECMAScript [WhiteSpace] and [LineTerminator] code points: what
    [String.prototype.trim] strips. *)
Definition is_white_space (c : code_unit) : bool :=
  ((9 <=? c) && (c <=? 13))
  || (c =? 32) || (c =? 160) || (c =? 5760)
  || ((8192 <=? c) && (c <=? 8202))
  || (c =? 8232) || (c =? 8233) || (c =? 8239) || (c =? 8287)
  || (c =? 12288) || (c =? 65279).

Fixpoint trimStart (s : jsstring) : jsstring :=
  match s with
  | c :: rest => if is_white_space c then trimStart rest else s
  | [] => []
  end.

Definition trimEnd (s : jsstring) : jsstring := rev (trimStart (rev s)).

(** [s.trim()] *)
Definition trim (s : jsstring) : jsstring := trimEnd (trimStart s).

(** ** JavaScript values

    The values [res.json()] can resolve to, and [undefined].  A number
    is held as its [ToString] image, which determines it up to the sign
    of zero; the component observes numbers through [ToString] and
    [ToBoolean] only. *)
Inductive jsval : Type :=
| JUndefined
| JNull
| JBool (b : bool)
| JNum (shown : jsstring)
| JStr (s : jsstring)
| JArr (items : list jsval)
| JObj (fields : list (jsstring * jsval)).

(** ** Exceptions *)

Inductive js_error : Type :=
| NetworkRequestFailed   (* [fetch] rejects: no response was obtained *)
| JsonSyntaxError        (* [res.json()] rejects: the body is not JSON *)
| PropertyOfNullish      (* TypeError: property read on null or undefined *)
| NotPrimitive           (* TypeError: cannot convert object to primitive *)
| StorageInvalidValue    (* AsyncStorage rejects a value that is no string *)
| StorageFailed          (* an AsyncStorage read rejects *)
| PickerFailed.          (* the image picker rejects *)

Inductive completion (A : Type) : Type :=
| Normal (a : A)
| Throw (e : js_error).
Arguments Normal {A} a.
Arguments Throw {A} e.

(** [ToBoolean]: the test of [if (v)], [!v] and [v || w]. *)
Definition to_boolean (v : jsval) : bool :=
  match v with
  | JUndefined | JNull => false
  | JBool b => b
  | JNum shown =>
      negb (bool_decide (shown = lit "0") || bool_decide (shown = lit "NaN"))
  | JStr s => negb (bool_decide (s = []))
  | JArr _ | JObj _ => true
  end.

(** Has the object an own property [key]? *)
Definition has_key (key : jsstring) (fields : list (jsstring * jsval)) : bool :=
  bool_decide (key ∈ fields.*1).

(** [ToString], as a template literal applies it.  An array is joined
    with commas, [null] and [undefined] items giving the empty string.
    An object is converted by the [toString] it inherits, which yields
    ["[object Object]"]; an own [toString] property hides that method,
    and as no JSON value is callable the conversion then throws a
    TypeError. *)
Fixpoint to_string (v : jsval) : completion jsstring :=
  match v with
  | JUndefined => Normal (lit "undefined")
  | JNull => Normal (lit "null")
  | JBool true => Normal (lit "true")
  | JBool false => Normal (lit "false")
  | JNum shown => Normal shown
  | JStr s => Normal s
  | JArr items =>
      (fix join (l : list jsval) : completion jsstring :=
         match l with
         | [] => Normal []
         | x :: rest =>
             match
               match x with
               | JUndefined | JNull => Normal []
               | _ => to_string x
               end
             with
             | Throw e => Throw e
             | Normal item =>
                 match rest with
                 | [] => Normal item
                 | _ :: _ =>
                     match join rest with
                     | Throw e => Throw e
                     | Normal tail => Normal (item ++ lit "," ++ tail)
                     end
                 end
             end
         end) items
  | JObj fields =>
      if has_key (lit "toString") fields then Throw NotPrimitive
      else Normal (lit "[object Object]")
  end.

(** [a || b] *)
Definition js_or (a b : jsval) : jsval := if to_boolean a then a else b.

(** A [string | null] state cell or storage result, as a value. *)
Definition of_nullable (o : option jsstring) : jsval :=
  match o with
  | Some s => JStr s
  | None => JNull
  end.

(** [ToString] of a [string | null], which never throws. *)
Definition nullable_to_string (o : option jsstring) : jsstring :=
  match o with
  | Some s => s
  | None => lit "null"
  end.

Fixpoint assoc (k : jsstring) (fields : list (jsstring * jsval)) : jsval :=
  match fields with
  | [] => JUndefined
  | (k', v) :: rest => if bool_decide (k' = k) then v else assoc k rest
  end.

(** [v.k] for an own-property name [k] (the source reads [detail],
    [reply] and [access_token], none of which a prototype defines). *)
Definition get_prop (v : jsval) (k : jsstring) : completion jsval :=
  match v with
  | JUndefined | JNull => Throw PropertyOfNullish
  | JObj fields => Normal (assoc k fields)
  | JBool _ | JNum _ | JStr _ | JArr _ => Normal JUndefined
  end.

(** ** The component state *)

Inductive screen_name : Type := Auth | Home | Chat | Emergency.

Inductive entry_type : Type := Text | Image.
Inductive entry_sender : Type := User | Ai.

(** An element of [chat]: [{ type, value, sender }]. *)
Record entry : Type := Entry {
  type : entry_type;
  value : jsval;
  sender : entry_sender;
}.

(** The [useState] cells of [App]. *)
Record ui_state : Type := UI {
  screen : screen_name;
  message : jsstring;
  chat : list entry;
  image : option jsstring;
  email : jsstring;
  password : jsstring;
  loading : bool;
}.

Definition initial_ui : ui_state :=
  {| screen := Auth; message := []; chat := []; image := None;
     email := []; password := []; loading := false |}.

(** ** The outside world: network, storage, picker *)

Inductive form_entry : Type :=
| FormText (s : jsstring)
| FormFile (uri name mime : jsstring).   (* [{ uri, name, type }] *)

Inductive request_body : Type :=
| FormData (parts : list (jsstring * form_entry))
| JsonText (v : jsval).                  (* [JSON.stringify(v)] *)

Record request : Type := Request {
  url : jsstring;
  method : jsstring;
  headers : list (jsstring * jsstring);
  body : request_body;
}.

(** A response: its status line and what [res.json()] makes of its
    body ([None]: the body is not JSON). *)
Record response : Type := Response {
  status : N;
  json_body : option jsval;
}.

(** [res.ok] *)
Definition ok (res : response) : bool :=
  (200 <=? status res) && (status res <=? 299).

Inductive fetch_outcome : Type :=
| Rejects
| Resolves (res : response).

(** What AsyncStorage does with a read: like the network, the store
    is outside the program, and a handler takes its answer as an
    argument. *)
Inductive read_outcome : Type :=
| ReadRejects
| ReadResolves.

(** What the backend and the transport answer to a request. *)
Abbreviation network := (request -> fetch_outcome) (only parsing).

Record asset : Type := Asset { asset_uri : jsstring }.

(** The result of [ImagePicker.launchImageLibraryAsync]. *)
Record picker_result : Type := Picked {
  canceled : bool;
  assets : list asset;
}.

(** The state a handler runs on: the component state and AsyncStorage. *)
Record world : Type := World {
  ui : ui_state;
  storage : gmap (list N) (list N);
}.

Definition initial_world : world := {| ui := initial_ui; storage := ∅ |}.

Inductive log_arg : Type :=
| LogValue (v : jsval)
| LogError (e : js_error).

(** Everything a handler does, in program order. *)
Inductive effect : Type :=
| ESetScreen (s : screen_name)
| ESetMessage (s : jsstring)
| ESetChat (e : entry)                 (* [setChat((prev) => [...prev, e])] *)
| ESetImage (i : option jsstring)
| ESetEmail (s : jsstring)
| ESetPassword (s : jsstring)
| ESetLoading (b : bool)
| EAlert (text : jsstring)
| EConsoleLog (label : jsstring) (arg : log_arg)
| EGetItem (key : jsstring)
| ESetItem (key : jsstring) (v : jsstring)
| EFetch (req : request)
| ELaunchImageLibrary (quality : jsval).

(** The state change of a state setter; the other effects leave the
    component state alone. *)
Definition apply_ui (e : effect) (s : ui_state) : ui_state :=
  match e with
  | ESetScreen x =>
      {| screen := x; message := message s; chat := chat s; image := image s;
         email := email s; password := password s; loading := loading s |}
  | ESetMessage x =>
      {| screen := screen s; message := x; chat := chat s; image := image s;
         email := email s; password := password s; loading := loading s |}
  | ESetChat x =>
      {| screen := screen s; message := message s; chat := chat s ++ [x];
         image := image s;
         email := email s; password := password s; loading := loading s |}
  | ESetImage x =>
      {| screen := screen s; message := message s; chat := chat s; image := x;
         email := email s; password := password s; loading := loading s |}
  | ESetEmail x =>
      {| screen := screen s; message := message s; chat := chat s;
         image := image s;
         email := x; password := password s; loading := loading s |}
  | ESetPassword x =>
      {| screen := screen s; message := message s; chat := chat s;
         image := image s;
         email := email s; password := x; loading := loading s |}
  | ESetLoading x =>
      {| screen := screen s; message := message s; chat := chat s;
         image := image s;
         email := email s; password := password s; loading := x |}
  | EAlert _ | EConsoleLog _ _ | EGetItem _ | ESetItem _ _ | EFetch _
  | ELaunchImageLibrary _ => s
  end.

Definition apply_storage (e : effect) (m : gmap (list N) (list N))
  : gmap (list N) (list N) :=
  match e with
  | ESetItem k v => <[k:=v]> m
  | _ => m
  end.

Definition apply_effect (e : effect) (w : world) : world :=
  {| ui := apply_ui e (ui w); storage := apply_storage e (storage w) |}.

(** The world after a list of effects, oldest first. *)
Definition replay (es : list effect) (w : world) : world :=
  fold_left (fun acc e => apply_effect e acc) es w.

(** ** The handler monad *)

Record run (A : Type) : Type := Run {
  outcome : completion A;
  after : world;
  effects : list effect;
}.
Arguments Run {A} outcome after effects.
Arguments outcome {A} r.
Arguments after {A} r.
Arguments effects {A} r.

Definition M (A : Type) : Type := world -> run A.

#[export] Instance M_ret : MRet M :=
  fun A a w => Run (Normal a) w [].

#[export] Instance M_bind : MBind M :=
  fun A B f m w =>
    match m w with
    | Run (Normal a) w1 es1 =>
        match f a w1 with
        | Run o w2 es2 => Run o w2 (es1 ++ es2)
        end
    | Run (Throw e) w1 es1 => Run (Throw e) w1 es1
    end.

(** [try { body } catch (error) { handler }] *)
Definition try_catch {A} (body : M A) (handler : js_error -> M A) : M A :=
  fun w =>
    match body w with
    | Run (Normal a) w1 es1 => Run (Normal a) w1 es1
    | Run (Throw e) w1 es1 =>
        match handler e w1 with
        | Run o w2 es2 => Run o w2 (es1 ++ es2)
        end
    end.

Definition perform (e : effect) : M unit :=
  fun w => Run (Normal tt) (apply_effect e w) [e].

Definition lift {A} (c : completion A) : M A :=
  fun w => Run c w [].

Definition when (b : bool) (m : M unit) : M unit :=
  if b then m else mret tt.

(** ** Primitives *)

Definition setScreen (s : screen_name) : M unit := perform (ESetScreen s).
Definition setMessage (s : jsstring) : M unit := perform (ESetMessage s).
Definition setImage (i : option jsstring) : M unit := perform (ESetImage i).
Definition setEmail (s : jsstring) : M unit := perform (ESetEmail s).
Definition setPassword (s : jsstring) : M unit := perform (ESetPassword s).
Definition setLoading (b : bool) : M unit := perform (ESetLoading b).

(** [setChat((prev) => [...prev, e])], the only form in which the
    source calls [setChat]. *)
Definition setChat (e : entry) : M unit := perform (ESetChat e).

Definition alert (text : jsstring) : M unit := perform (EAlert text).

Definition console_log (label : jsstring) (arg : log_arg) : M unit :=
  perform (EConsoleLog label arg).

(** What a read of the store resolves to: the stored string, or
    [null] when there is none; an item stored as the empty string reads
    as [null] too. *)
Definition read_item (m : gmap (list N) (list N)) (key : jsstring)
  : option jsstring :=
  match m !! key with
  | Some s => if bool_decide (s = []) then None else Some s
  | None => None
  end.

(** [AsyncStorage.getItem(key)]: the promise resolves with what the
    store holds, or rejects. *)
Definition getItem (read : read_outcome) (key : jsstring)
  : M (option jsstring) :=
  fun w =>
    match read with
    | ReadResolves => Run (Normal (read_item (storage w) key)) w [EGetItem key]
    | ReadRejects => Run (Throw StorageFailed) w [EGetItem key]
    end.

(** [AsyncStorage.setItem(key, v)].  The store holds strings; the
    library rejects any other value. *)
Definition setItem (key : jsstring) (v : jsval) : M unit :=
  match v with
  | JStr s => perform (ESetItem key s)
  | _ => lift (Throw StorageInvalidValue)
  end.

(** [fetch(url, init)] against the network [net]. *)
Definition fetch (net : network) (req : request) : M response :=
  fun w =>
    Run (match net req with
         | Rejects => Throw NetworkRequestFailed
         | Resolves res => Normal res
         end) w [EFetch req].

(** [res.json()] *)
Definition json (res : response) : M jsval :=
  lift (match json_body res with
        | Some v => Normal v
        | None => Throw JsonSyntaxError
        end).

(** [ImagePicker.launchImageLibraryAsync({ quality: 0.5 })] *)
Definition launchImageLibraryAsync (picker : completion picker_result)
  : M picker_result :=
  fun w => Run picker w [ELaunchImageLibrary (JNum (lit "0.5"))].

Definition API_URL : jsstring := lit "http://192.168.56.1:8000".

(** ** The handlers

    A handler is a closure over the state cells of the render that
    created it: it takes the values it captured as arguments. *)

Definition user_text (message : jsstring) : entry :=
  {| type := Text; value := JStr message; sender := User |}.

Definition ai_text (v : jsval) : entry :=
  {| type := Text; value := v; sender := Ai |}.

(** The [FormData] that [sendMessage] builds (lines 37-50). *)
Definition formData (message : jsstring) (image : option jsstring)
  : list (jsstring * form_entry) :=
  (if to_boolean (JStr (trim message))
   then [(lit "message", FormText (trim message))] else [])
  ++
  (match image with
   | Some uri =>
       if to_boolean (JStr uri)
       then [(lit "image",
              FormFile uri (lit "upload.jpg") (lit "image/jpeg"))]
       else []
   | None => []
   end).

Definition chat_request (token : option jsstring)
    (parts : list (jsstring * form_entry)) : request :=
  {| url := API_URL ++ lit "/chat/send";
     method := lit "POST";
     headers :=
       [(lit "Authorization",
         lit "Bearer " ++ nullable_to_string token)];
     body := FormData parts |}.

Definition sendMessage (read : read_outcome) (net : network)
    (message : jsstring) (image : option jsstring) : M unit :=
  if negb (to_boolean (JStr (trim message)))
     && negb (to_boolean (of_nullable image))
  then alert (lit "Please enter a message or select an image")
  else
    setLoading true ;;
    when (to_boolean (JStr (trim message)))
      (setChat (user_text message)) ;;
    token ← getItem read (lit "token") ;
    let parts := formData message image in
    setMessage [] ;;
    setImage None ;;
    try_catch
      (res ← fetch net (chat_request token parts) ;
       setLoading false ;;
       if negb (ok res) then
         errorData ← json res ;
         detail ← lift (get_prop errorData (lit "detail")) ;
         shown ← lift (to_string
                         (js_or detail (JStr (lit "Authentication failed")))) ;
         setChat (ai_text (JStr (lit "Error: " ++ shown)))
       else
         data ← json res ;
         console_log (lit "Response data:") (LogValue data) ;;
         reply ← lift (get_prop data (lit "reply")) ;
         setChat (ai_text reply))
      (fun error =>
         setLoading false ;;
         console_log (lit "Error:") (LogError error) ;;
         setChat (ai_text (JStr (lit "Server not reachable")))).

Definition pickImage (picker : completion picker_result) : M unit :=
  result ← launchImageLibraryAsync picker ;
  if negb (canceled result) then
    match assets result with
    | first :: _ =>
        let uri := asset_uri first in
        setImage (Some uri) ;;
        setChat {| type := Image; value := JStr uri; sender := User |}
    | [] => lift (Throw PropertyOfNullish)
    end
  else mret tt.

Definition credentials (email password : jsstring) : request_body :=
  JsonText (JObj [(lit "email", JStr email); (lit "password", JStr password)]).

Definition auth_request (path : string) (email password : jsstring)
  : request :=
  {| url := API_URL ++ lit path;
     method := lit "POST";
     headers := [(lit "Content-Type", lit "application/json")];
     body := credentials email password |}.

Definition signup (net : network) (email password : jsstring) : M unit :=
  try_catch
    (res ← fetch net (auth_request "/auth/signup" email password) ;
     if negb (ok res) then alert (lit "Signup failed")
     else alert (lit "Signup successful, please login"))
    (fun _ => alert (lit "Server not reachable")).

Definition login (net : network) (email password : jsstring) : M unit :=
  try_catch
    (res ← fetch net (auth_request "/auth/login" email password) ;
     if negb (ok res) then alert (lit "Invalid credentials")
     else
       data ← json res ;
       access_token ← lift (get_prop data (lit "access_token")) ;
       setItem (lit "token") access_token ;;
       setScreen Home)
    (fun _ => alert (lit "Server not reachable")).

(** ** The controls of each screen

    What the user can do, and the handler each control is bound to.
    The closures passed to [onPress] read the state of the render that
    created them. *)

Inductive event : Type :=
| ChangeEmail (s : jsstring)
| ChangePassword (s : jsstring)
| PressLogin (net : network)
| PressSignUp (net : network)
| PressChat
| PressEmergency
| ChangeMessage (s : jsstring)
| PressSend (read : read_outcome) (net : network)
| PressSendImage (picker : completion picker_result)
| PressGoBack.

(** Is the control rendered in state [s], and enabled? *)
Definition enabled (s : ui_state) (ev : event) : bool :=
  match screen s, ev with
  | Auth, (ChangeEmail _ | ChangePassword _ | PressLogin _ | PressSignUp _) =>
      true
  | Chat, ChangeMessage _ => true
  | Chat, (PressSend _ _ | PressSendImage _ | PressGoBack) =>
      negb (loading s)
  | Emergency, PressGoBack => true
  | Home, (PressChat | PressEmergency) => true
  | _, _ => false
  end.

Definition handler (s : ui_state) (ev : event) : M unit :=
  match ev with
  | ChangeEmail x => setEmail x
  | ChangePassword x => setPassword x
  | PressLogin net => login net (email s) (password s)
  | PressSignUp net => signup net (email s) (password s)
  | PressChat => setScreen Chat
  | PressEmergency => setScreen Emergency
  | ChangeMessage x => setMessage x
  | PressSend read net => sendMessage read net (message s) (image s)
  | PressSendImage picker => pickImage picker
  | PressGoBack => setScreen Home
  end.

(** One user action, its handler run to completion. *)
Definition dispatch (ev : event) (w : world) : run unit :=
  if enabled (ui w) ev then handler (ui w) ev w else Run (Normal tt) w [].

Definition step (w : world) (ev : event) : world := after (dispatch ev w).

Definition run_events (evs : list event) (w : world) : world :=
  fold_left step evs w.

(** ** Reading a list of effects *)

(** The entries appended to [chat]. *)
Fixpoint appended (es : list effect) : list entry :=
  match es with
  | [] => []
  | ESetChat e :: rest => e :: appended rest
  | _ :: rest => appended rest
  end.

(** The requests issued. *)
Fixpoint requests (es : list effect) : list request :=
  match es with
  | [] => []
  | EFetch req :: rest => req :: requests rest
  | _ :: rest => requests rest
  end.

(** The alerts shown. *)
Fixpoint alerts (es : list effect) : list jsstring :=
  match es with
  | [] => []
  | EAlert text :: rest => text :: alerts rest
  | _ :: rest => alerts rest
  end.

Definition from_assistant (e : entry) : bool :=
  match sender e with Ai => true | User => false end.

(** The field [key] of a multipart body, if it has one. *)
Fixpoint field (key : jsstring) (parts : list (jsstring * form_entry))
  : option form_entry :=
  match parts with
  | [] => None
  | (k, v) :: rest => if bool_decide (k = key) then Some v else field key rest
  end.

(** The test of line 23, negated: the composition can be sent. *)
Definition sendable (message : jsstring) (image : option jsstring) : bool :=
  to_boolean (JStr (trim message)) || to_boolean (of_nullable image).

(** The effects that precede the first request, and those that follow
    it: what the handler does before [fetch] is called, and after the
    call has settled. *)
Fixpoint before_fetch (es : list effect) : list effect :=
  match es with
  | [] => []
  | EFetch _ :: _ => []
  | e :: rest => e :: before_fetch rest
  end.

Fixpoint after_fetch (es : list effect) : list effect :=
  match es with
  | [] => []
  | EFetch _ :: rest => rest
  | _ :: rest => after_fetch rest
  end.



Definition leading_white_space (s : jsstring) : bool :=
  match s with
  | c :: _ => is_white_space c
  | [] => false
  end.

Definition trailing_white_space (s : jsstring) : bool :=
  leading_white_space (rev s).


(** Does the effect leave the credential cells alone, and the screen
    off the auth screen? *)
Definition keeps_credentials (e : effect) : bool :=
  match e with
  | ESetEmail _ | ESetPassword _ | ESetScreen Auth => false
  | _ => true
  end.

(** The two text inputs of the auth screen. *)
Definition edits_credentials (ev : event) : bool :=
  match ev with
  | ChangeEmail _ | ChangePassword _ => true
  | _ => false
  end.

(** A handler all of whose effects satisfy [p]. *)
Definition emits (p : effect -> bool) {A} (m : M A) : Prop :=
  forall w, forallb p (effects (m w)) = true.

(** ** Sample inputs: the scenarios of the specification *)

(** A network that answers every request with [res]. *)
Definition answering (res : response) : network := fun _ => Resolves res.

(** A network on which every request throws. *)
Definition unreachable : network := fun _ => Rejects.

Definition reply_hello : response :=
  {| status := 200;
     json_body := Some (JObj [(lit "reply", JStr (lit "Hello"))]) |}.

Definition token_expired : response :=
  {| status := 401;
     json_body := Some (JObj [(lit "detail", JStr (lit "token expired"))]) |}.


Definition login_ok : response :=
  {| status := 200;
     json_body := Some (JObj [(lit "access_token", JStr (lit "tok123"))]) |}.

Definition login_refused : response :=
  {| status := 401;
     json_body := Some (JObj [(lit "detail", JStr (lit "bad password"))]) |}.

Definition not_json : response := {| status := 200; json_body := None |}.

(** The auth screen with both credentials typed in. *)
Definition signing_in : world :=
  {| ui := {| screen := Auth; message := []; chat := []; image := None;
              email := lit "a@b.c"; password := lit "secret";
              loading := false |};
     storage := {[ lit "token" := lit "old" ]} |}.

(** The chat screen with one picture in the log and a text typed in. *)
Definition chatting : world :=
  {| ui := {| screen := Chat; message := lit "hi";
              chat := [{| type := Image; value := JStr (lit "file:///a.jpg");
                          sender := User |}];
              image := Some (lit "file:///a.jpg");
              email := lit "a@b.c"; password := lit "secret";
              loading := false |};
     storage := {[ lit "token" := lit "tok123" ]} |}.

(** ** Predicates on effects and entries, for the frame properties *)

(** Does the effect leave the screen, the credentials and the token
    store alone? *)
Definition keeps_session (e : effect) : bool :=
  match e with
  | ESetScreen _ | ESetEmail _ | ESetPassword _ | ESetItem _ _ => false
  | _ => true
  end.

(** Does the effect leave the loading flag alone? *)
Definition keeps_loading (e : effect) : bool :=
  match e with
  | ESetLoading _ => false
  | _ => true
  end.

(** Does the effect leave every key of the store but ["token"] alone? *)
Definition writes_token_only (e : effect) : bool :=
  match e with
  | ESetItem key _ => bool_decide (key = lit "token")
  | _ => true
  end.

(** The shapes of entry the handlers build: a user text that is not
    blank, a user image at a URI, or any text of the assistant. *)
Definition well_formed_entry (e : entry) : bool :=
  match type e, sender e, value e with
  | Text, User, JStr m => negb (bool_decide (trim m = []))
  | Image, User, JStr _ => true
  | Text, Ai, _ => true
  | _, _, _ => false
  end.

(** The image entry [pickImage] shows for a picked URI. *)
Definition user_image (uri : jsstring) : entry :=
  {| type := Image; value := JStr uri; sender := User |}.

(** The picker's answer when the user chooses the file at [uri]. *)
Definition picked (uri : jsstring) : completion picker_result :=
  Normal {| canceled := false; assets := [{| asset_uri := uri |}] |}.

(** A body that [res.json()] cannot turn into a value with
    properties: not JSON at all, or the JSON [null]. *)
Definition unreadable (res : response) : bool :=
  match json_body res with
  | None | Some JNull | Some JUndefined => true
  | Some _ => false
  end.


Definition no_reply : response :=
  {| status := 200;
     json_body := Some (JObj [(lit "answer", JStr (lit "Hello"))]) |}.


(** Is the event other than a send whose token read rejects? *)
Definition read_resolves (ev : event) : bool :=
  match ev with
  | PressSend ReadRejects _ => false
  | _ => true
  end.


Definition login_empty : response :=
  {| status := 200;
     json_body := Some (JObj [(lit "access_token", JStr [])]) |}.

(** A handler is faithful when the state it ends in is the one its
    recorded effects lead to. *)
Definition faithful {A} (m : M A) : Prop :=
  forall w, after (m w) = replay (effects (m w)) w.

Arguments lit : simpl never.
Arguments trim : simpl never.
Arguments to_string : simpl nomatch.

Arguments formData : simpl never.
Arguments chat_request : simpl never.

(** Symbolic execution of a handler: unfold the monad, keep the data. *)
Ltac unfold_handler :=
  unfold sendMessage, login, signup, pickImage, when,
    setLoading, setChat, setMessage, setImage, setScreen, setEmail,
    setPassword, alert, console_log, setItem, getItem, fetch, json,
    launchImageLibraryAsync, try_catch, perform, lift,
    mbind, mret, M_bind, M_ret.

Ltac exec :=
  cbn [outcome after effects app negb andb orb
       apply_effect apply_ui apply_storage ui storage
       screen message chat image email password loading].

(** ** Trimming *)

Lemma length_trimStart (s : jsstring) :
  (length (trimStart s) <= length s)%nat.
Proof.
  induction s as [|c rest IH]; cbn [trimStart]; [lia|].
  destruct (is_white_space c); cbn [length]; lia.
Qed.


Lemma length_trimEnd (s : jsstring) :
  (length (trimEnd s) <= length s)%nat.
Proof.
  unfold trimEnd. rewrite length_rev.
  pose proof (length_trimStart (rev s)) as H. rewrite length_rev in H. lia.
Qed.

Lemma length_trim (s : jsstring) : (length (trim s) <= length s)%nat.
Proof.
  unfold trim. pose proof (length_trimEnd (trimStart s)).
  pose proof (length_trimStart s). lia.
Qed.




(** ** Effects and the state they lead to *)

Lemma replay_app (es1 es2 : list effect) (w : world) :
  replay (es1 ++ es2) w = replay es2 (replay es1 w).
Proof. unfold replay. apply fold_left_app. Qed.

Lemma appended_app (es1 es2 : list effect) :
  appended (es1 ++ es2) = appended es1 ++ appended es2.
Proof.
  induction es1 as [|e es1 IH]; [reflexivity|].
  destruct e; cbn [app appended]; rewrite IH; reflexivity.
Qed.

Lemma requests_app (es1 es2 : list effect) :
  requests (es1 ++ es2) = requests es1 ++ requests es2.
Proof.
  induction es1 as [|e es1 IH]; [reflexivity|].
  destruct e; cbn [app requests]; rewrite IH; reflexivity.
Qed.

Lemma chat_apply_effect (e : effect) (w : world) :
  chat (ui (apply_effect e w)) = chat (ui w) ++ appended [e].
Proof. destruct e; cbn; rewrite ?app_nil_r; reflexivity. Qed.

(** Whatever a list of effects does, it only appends to [chat]. *)
Lemma chat_replay (es : list effect) (w : world) :
  chat (ui (replay es w)) = chat (ui w) ++ appended es.
Proof.
  revert w. induction es as [|e es IH]; intros w.
  - cbn. rewrite app_nil_r. reflexivity.
  - change (replay (e :: es) w) with (replay es (apply_effect e w)).
    rewrite IH, chat_apply_effect.
    change (e :: es) with ([e] ++ es). rewrite appended_app.
    rewrite app_assoc. reflexivity.
Qed.

(** ** Faithfulness of the monad and of the handlers *)

Lemma faithful_ret {A} (a : A) : faithful (mret a).
Proof. intros w. reflexivity. Qed.

Lemma faithful_lift {A} (c : completion A) : faithful (lift c).
Proof. intros w. reflexivity. Qed.

Lemma faithful_perform (e : effect) : faithful (perform e).
Proof. intros w. reflexivity. Qed.

Lemma faithful_getItem (read : read_outcome) (key : jsstring) :
  faithful (getItem read key).
Proof. intros [s m]. destruct read; reflexivity. Qed.

Lemma faithful_fetch (net : network) (req : request) :
  faithful (fetch net req).
Proof. intros [s m]. reflexivity. Qed.

Lemma faithful_launch (picker : completion picker_result) :
  faithful (launchImageLibraryAsync picker).
Proof. intros [s m]. reflexivity. Qed.

Lemma faithful_bind {A B} (m : M A) (f : A -> M B) :
  faithful m -> (forall a, faithful (f a)) -> faithful (m ≫= f).
Proof.
  intros Hm Hf w. unfold mbind, M_bind.
  specialize (Hm w). destruct (m w) as [[a|e] w1 es1]; cbn [after effects] in Hm.
  - specialize (Hf a w1). destruct (f a w1) as [o w2 es2];
      cbn [after effects] in Hf |- *.
    rewrite replay_app. congruence.
  - exact Hm.
Qed.

Lemma faithful_try_catch {A} (body : M A) (handler : js_error -> M A) :
  faithful body -> (forall e, faithful (handler e)) ->
  faithful (try_catch body handler).
Proof.
  intros Hm Hf w. unfold try_catch.
  specialize (Hm w). destruct (body w) as [[a|e] w1 es1]; cbn [after effects] in Hm.
  - exact Hm.
  - specialize (Hf e w1). destruct (handler e w1) as [o w2 es2];
      cbn [after effects] in Hf |- *.
    rewrite replay_app. congruence.
Qed.

Lemma faithful_setItem (key : jsstring) (v : jsval) :
  faithful (setItem key v).
Proof.
  destruct v; first [apply faithful_lift | apply faithful_perform].
Qed.

Create HintDb faithful.
#[local] Hint Resolve faithful_ret faithful_lift faithful_perform
  faithful_getItem faithful_fetch faithful_launch faithful_setItem
  : faithful.

Ltac prove_faithful :=
  repeat first
    [ apply faithful_bind; [|intros ?]
    | apply faithful_try_catch; [|intros ?]
    | match goal with
      | |- faithful (if ?b then _ else _) => destruct b
      | |- faithful (match ?x with _ => _ end) => destruct x
      end
    | solve [auto with faithful]
    | progress unfold when, setLoading, setChat, setMessage, setImage,
        setScreen, setEmail, setPassword, alert, console_log, json ].

Lemma faithful_sendMessage read net message image :
  faithful (sendMessage read net message image).
Proof. unfold sendMessage. prove_faithful. Qed.

Lemma faithful_pickImage picker : faithful (pickImage picker).
Proof. unfold pickImage. prove_faithful. Qed.

Lemma faithful_signup net email password :
  faithful (signup net email password).
Proof. unfold signup. prove_faithful. Qed.

Lemma faithful_login net email password :
  faithful (login net email password).
Proof. unfold login. prove_faithful. Qed.

Lemma faithful_handler s ev : faithful (handler s ev).
Proof.
  destruct ev; cbn [handler];
    auto using faithful_sendMessage, faithful_pickImage, faithful_signup,
      faithful_login;
    prove_faithful.
Qed.

Lemma dispatch_faithful ev w :
  after (dispatch ev w) = replay (effects (dispatch ev w)) w.
Proof.
  unfold dispatch. destruct (enabled (ui w) ev); [|reflexivity].
  apply faithful_handler.
Qed.

(** ** Running [sendMessage] *)

Lemma truthy_trim (message : jsstring) :
  to_boolean (JStr (trim message)) = true <-> trim message <> [].
Proof.
  cbn [to_boolean]. rewrite negb_true_iff, bool_decide_eq_false. reflexivity.
Qed.

Lemma falsy_trim (message : jsstring) :
  to_boolean (JStr (trim message)) = false <-> trim message = [].
Proof.
  cbn [to_boolean]. rewrite negb_false_iff, bool_decide_eq_true. reflexivity.
Qed.

Lemma truthy_image (image : option jsstring) :
  to_boolean (of_nullable image) = true <->
  exists uri, image = Some uri /\ uri <> [].
Proof.
  destruct image as [uri|]; cbn [of_nullable to_boolean].
  - rewrite negb_true_iff, bool_decide_eq_false. split.
    + intros H. exists uri. auto.
    + intros (u & [= <-] & Hu). exact Hu.
  - split; [discriminate|]. intros (u & [=] & _).
Qed.

(** The run of [sendMessage] on a composition that cannot be sent. *)
Lemma sendMessage_blank read net message image w :
  sendable message image = false ->
  sendMessage read net message image w =
  Run (Normal tt) w [EAlert (lit "Please enter a message or select an image")].
Proof.
  unfold sendable. intros H. apply orb_false_elim in H as [H1 H2].
  unfold sendMessage. rewrite H1, H2. destruct w. reflexivity.
Qed.

(** Case analysis on a run of [sendMessage] that passes the guard: on
    the text, on the storage read, on the transport, on the status, on
    the body and on the rendering of the detail. *)
Ltac run_sendMessage Hs :=
  unfold sendable in Hs;
  unfold_handler;
  match goal with
  | |- context [to_boolean (JStr (trim ?m))] =>
      destruct (to_boolean (JStr (trim m))) eqn:?
  end;
  match goal with
  | |- context [to_boolean (of_nullable ?i)] =>
      destruct (to_boolean (of_nullable i)) eqn:?
  end;
  try discriminate Hs; exec;
  try match goal with
  | |- context [match ?net ?req with Rejects => _ | Resolves _ => _ end] =>
      let res := fresh "res" in
      destruct (net req) as [|res] eqn:?; exec;
      [| destruct (ok res) eqn:?; exec;
         (destruct (json_body res) as [?data|] eqn:?; exec;
          [ match goal with
            | |- context [get_prop ?d ?k] =>
                destruct (get_prop d k) eqn:?; exec
            end;
            try match goal with
            | |- context [to_string ?v] =>
                destruct (to_string v) eqn:?; exec
            end |]) ]
  end.

(** A run whose read resolves and that passes the guard issues exactly
    one request: the multipart body of lines 37-50 with the token that
    was read as bearer. *)
Lemma sendMessage_requests net message image w :
  sendable message image = true ->
  requests (effects (sendMessage ReadResolves net message image w)) =
  [chat_request (read_item (storage w) (lit "token"))
     (formData message image)].
Proof.
  intros Hs. run_sendMessage Hs; reflexivity.
Qed.

(** A run whose read rejects stops there: the handler rejects, no
    request goes out, and nothing after line 35 has happened. *)
Lemma sendMessage_read_rejected net message image w :
  sendable message image = true ->
  sendMessage ReadRejects net message image w
  = Run (Throw StorageFailed)
      (replay ([ESetLoading true]
               ++ (if to_boolean (JStr (trim message))
                   then [ESetChat (user_text message)] else [])) w)
      ([ESetLoading true]
       ++ (if to_boolean (JStr (trim message))
           then [ESetChat (user_text message)] else [])
       ++ [EGetItem (lit "token")]).
Proof.
  intros Hs. run_sendMessage Hs; reflexivity.
Qed.

(** Whatever the read does, a request that is issued is that one. *)
Lemma sendMessage_request_inv read net message image w req :
  req ∈ requests (effects (sendMessage read net message image w)) ->
  read = ReadResolves
  /\ sendable message image = true
  /\ req = chat_request (read_item (storage w) (lit "token"))
             (formData message image).
Proof.
  intros Hreq. destruct (sendable message image) eqn:Hs.
  - destruct read.
    + rewrite sendMessage_read_rejected in Hreq by exact Hs.
      cbn [effects] in Hreq.
      destruct (to_boolean (JStr (trim message))); cbn in Hreq;
        apply elem_of_nil in Hreq; contradiction.
    + rewrite sendMessage_requests in Hreq by exact Hs.
      apply list_elem_of_singleton in Hreq. auto.
  - rewrite sendMessage_blank in Hreq by exact Hs.
    cbn in Hreq. apply elem_of_nil in Hreq. contradiction.
Qed.

Lemma sendable_text message image :
  trim message <> [] -> sendable message image = true.
Proof.
  intros H. unfold sendable. apply truthy_trim in H. rewrite H. reflexivity.
Qed.

(** Closes the cases of a run that contradict what is known of the
    text, the transport or the response. *)
Ltac absurd_case :=
  first
    [ discriminate
    | match goal with
      | H : trim ?m <> [], E : to_boolean (JStr (trim ?m)) = false |- _ =>
          apply falsy_trim in E; contradiction
      | H : ?x = Rejects, E : ?x = Resolves _ |- _ => congruence
      | H : ?x = true, E : ?x = false |- _ => congruence
      end ].

(** ** The claims *)

(** C1 (amended). A send whose text is non-empty after trimming, whose
    token read resolves and whose request is answered with a 2xx status
    and a JSON body whose [reply] can be read issues one request; before
    it, exactly one entry is appended to the conversation, the text/user
    entry; after it, exactly one entry is appended, the text/assistant
    entry that carries the [reply] field of the body; the log ends with
    the user entry followed by the assistant entry. *)
Theorem sendMessage_success net message image w res data reply :
  trim message <> [] ->
  net (chat_request (read_item (storage w) (lit "token"))
         (formData message image))
    = Resolves res ->
  ok res = true ->
  json_body res = Some data ->
  get_prop data (lit "reply") = Normal reply ->
  let r := sendMessage ReadResolves net message image w in
  requests (effects r)
    = [chat_request (read_item (storage w) (lit "token"))
         (formData message image)]
  /\ appended (before_fetch (effects r))
     = [{| type := Text; value := JStr message; sender := User |}]
  /\ appended (after_fetch (effects r))
     = [{| type := Text; value := reply; sender := Ai |}]
  /\ chat (ui (after r))
     = chat (ui w)
       ++ [{| type := Text; value := JStr message; sender := User |};
           {| type := Text; value := reply; sender := Ai |}].
Proof.
  intros Ht Hnet Hok Hbody Hreply r. subst r.
  pose proof (sendable_text message image Ht) as Hs.
  split; [apply sendMessage_requests; exact Hs|].
  run_sendMessage Hs; simplify_eq; try absurd_case;
    try match goal with
    | H1 : get_prop ?d ?k = _, H2 : get_prop ?d ?k = _ |- _ =>
        rewrite H1 in H2; simplify_eq
    end;
    (split; [reflexivity|]); (split; [reflexivity|]);
    rewrite <- ?app_assoc; reflexivity.
Qed.

(** C2. When the text is empty after trimming and no image is pending,
    [sendMessage] shows the validation alert and does nothing else: no
    request, and the conversation, the loading flag, every other state
    cell and the token store are as before. *)
Theorem sendMessage_nothing_to_send read net message image w :
  trim message = [] ->
  image = None ->
  let r := sendMessage read net message image w in
  effects r = [EAlert (lit "Please enter a message or select an image")]
  /\ requests (effects r) = []
  /\ after r = w.
Proof.
  intros Ht Hi r. subst r image.
  rewrite sendMessage_blank.
  - repeat split; reflexivity.
  - unfold sendable. apply falsy_trim in Ht. rewrite Ht. reflexivity.
Qed.

(** C4. When the request of a send throws (no response is obtained),
    the loading flag is false afterwards and the conversation has gained
    exactly one entry of origin assistant, the entry of kind text that
    reads ["Server not reachable"], appended after the request. *)
Theorem sendMessage_unreachable net message image w :
  sendable message image = true ->
  net (chat_request (read_item (storage w) (lit "token"))
         (formData message image))
    = Rejects ->
  let r := sendMessage ReadResolves net message image w in
  loading (ui (after r)) = false
  /\ appended (after_fetch (effects r))
     = [{| type := Text; value := JStr (lit "Server not reachable");
           sender := Ai |}]
  /\ filter (fun e => from_assistant e = true) (appended (effects r))
     = [{| type := Text; value := JStr (lit "Server not reachable");
           sender := Ai |}]
  /\ chat (ui (after r)) = chat (ui w) ++ appended (effects r).
Proof.
  intros Hs Hnet r. subst r.
  split; [|split; [|split]].
  4: { rewrite faithful_sendMessage. apply chat_replay. }
  all: run_sendMessage Hs; simplify_eq; try absurd_case; reflexivity.
Qed.





Lemma field_formData_message message image :
  field (lit "message") (formData message image)
  = if to_boolean (JStr (trim message))
    then Some (FormText (trim message)) else None.
Proof.
  unfold formData.
  destruct (to_boolean (JStr (trim message))); [reflexivity|].
  destruct image as [uri|]; [|reflexivity].
  destruct (to_boolean (JStr uri)); reflexivity.
Qed.

Lemma field_formData_image message image :
  field (lit "image") (formData message image)
  = match image with
    | Some uri =>
        if to_boolean (JStr uri)
        then Some (FormFile uri (lit "upload.jpg") (lit "image/jpeg"))
        else None
    | None => None
    end.
Proof.
  unfold formData.
  destruct (to_boolean (JStr (trim message))), image as [uri|];
    try reflexivity;
    destruct (to_boolean (JStr uri)); reflexivity.
Qed.

Lemma field_formData_keys message image key :
  is_Some (field key (formData message image)) ->
  key = lit "message" \/ key = lit "image".
Proof.
  unfold formData.
  destruct (to_boolean (JStr (trim message))), image as [uri|];
    try destruct (to_boolean (JStr uri));
    cbn [app field]; repeat case_bool_decide;
    intros [v Hv]; auto; discriminate.
Qed.

(** C6. A send that reaches the network issues one request, whose
    multipart body has a [message] field exactly when the text is
    non-empty after trimming (the trimmed text), an [image] field
    exactly when an image is pending (the attachment [upload.jpg] of type
    [image/jpeg] at the pending URI), and no other field.  An image is
    pending when the cell holds a non-empty URI: the test [if (image)]
    of the source. *)
Theorem sendMessage_request_body net message image w :
  sendable message image = true ->
  let r := sendMessage ReadResolves net message image w in
  let parts := formData message image in
  requests (effects r)
    = [chat_request (read_item (storage w) (lit "token")) parts]
  /\ body (chat_request (read_item (storage w) (lit "token")) parts)
     = FormData parts
  /\ (is_Some (field (lit "message") parts) <-> trim message <> [])
  /\ (trim message <> [] ->
      field (lit "message") parts = Some (FormText (trim message)))
  /\ (is_Some (field (lit "image") parts) <->
      exists uri, image = Some uri /\ uri <> [])
  /\ (forall uri, image = Some uri -> uri <> [] ->
      field (lit "image") parts
      = Some (FormFile uri (lit "upload.jpg") (lit "image/jpeg")))
  /\ (forall key, is_Some (field key parts) ->
      key = lit "message" \/ key = lit "image").
Proof.
  intros Hs r parts. subst r parts.
  split; [apply sendMessage_requests; exact Hs|].
  split; [reflexivity|].
  rewrite field_formData_message, field_formData_image.
  split; [|split; [|split; [|split]]].
  - rewrite <- truthy_trim.
    destruct (to_boolean (JStr (trim message))); split;
      first [discriminate | reflexivity | intros [? [=]] | eauto].
  - intros Ht. apply truthy_trim in Ht. rewrite Ht. reflexivity.
  - rewrite <- truthy_image.
    destruct image as [uri|]; cbn [of_nullable];
      [destruct (to_boolean (JStr uri))|]; split;
      first [discriminate | reflexivity | intros [? [=]] | eauto].
  - intros uri -> Hu.
    assert (to_boolean (JStr uri) = true) as ->; [|reflexivity].
    cbn [to_boolean]. rewrite negb_true_iff, bool_decide_eq_false. exact Hu.
  - apply field_formData_keys.
Qed.

(** ** The pending composition during a send *)









(** ** The conversation log over whole sessions *)

Lemma chat_prefix_handler {A} (m : M A) w :
  faithful m -> chat (ui w) `prefix_of` chat (ui (after (m w))).
Proof.
  intros Hm. rewrite Hm, chat_replay. apply prefix_app_r. reflexivity.
Qed.

Lemma chat_prefix_step ev w :
  chat (ui w) `prefix_of` chat (ui (step w ev)).
Proof.
  unfold step. rewrite dispatch_faithful, chat_replay.
  apply prefix_app_r. reflexivity.
Qed.

Lemma chat_prefix_run_events evs w :
  chat (ui w) `prefix_of` chat (ui (run_events evs w)).
Proof.
  revert w. induction evs as [|ev evs IH]; intros w; [reflexivity|].
  change (run_events (ev :: evs) w) with (run_events evs (step w ev)).
  etransitivity; [apply chat_prefix_step | apply IH].
Qed.

(** C8. The conversation log is append-only.  Every run of
    [sendMessage] and of [pickImage], whatever its outcome, and every
    sequence of user actions, leaves the log it started from as a prefix
    of the log it ends with: the earlier entries are all there, at the
    same positions and unchanged, and the length has not decreased. *)
Theorem chat_append_only :
  (forall read net message image w,
     chat (ui w) `prefix_of`
       chat (ui (after (sendMessage read net message image w))))
  /\ (forall picker w,
        chat (ui w) `prefix_of` chat (ui (after (pickImage picker w))))
  /\ (forall es w, chat (ui w) `prefix_of` chat (ui (replay es w)))
  /\ (forall evs w,
        let w' := run_events evs w in
        chat (ui w) `prefix_of` chat (ui w')
        /\ (length (chat (ui w)) <= length (chat (ui w')))%nat
        /\ (forall i e,
              chat (ui w) !! i = Some e -> chat (ui w') !! i = Some e)).
Proof.
  split; [|split; [|split]].
  - intros. apply chat_prefix_handler, faithful_sendMessage.
  - intros. apply chat_prefix_handler, faithful_pickImage.
  - intros. rewrite chat_replay. apply prefix_app_r. reflexivity.
  - intros evs w w'. subst w'.
    pose proof (chat_prefix_run_events evs w) as Hp.
    split; [exact Hp|]. split; [apply prefix_length, Hp|].
    intros i e Hi. eapply prefix_lookup_Some; eassumption.
Qed.

(** ** The credential cells *)

Lemma emits_ret p {A} (a : A) : emits p (mret a).
Proof. intros w. reflexivity. Qed.

Lemma emits_lift p {A} (c : completion A) : emits p (lift c).
Proof. intros w. reflexivity. Qed.

Lemma emits_perform (p : effect -> bool) e :
  p e = true -> emits p (perform e).
Proof. intros He w. cbn. rewrite He. reflexivity. Qed.

Lemma emits_bind p {A B} (m : M A) (f : A -> M B) :
  emits p m -> (forall a, emits p (f a)) -> emits p (m ≫= f).
Proof.
  intros Hm Hf w. unfold mbind, M_bind.
  specialize (Hm w). destruct (m w) as [[a|e] w1 es1]; cbn [effects] in Hm.
  - specialize (Hf a w1). destruct (f a w1) as [o w2 es2];
      cbn [effects] in Hf |- *.
    rewrite forallb_app, Hm, Hf. reflexivity.
  - exact Hm.
Qed.

Lemma emits_try_catch p {A} (body : M A) (handler : js_error -> M A) :
  emits p body -> (forall e, emits p (handler e)) ->
  emits p (try_catch body handler).
Proof.
  intros Hm Hf w. unfold try_catch.
  specialize (Hm w). destruct (body w) as [[a|e] w1 es1]; cbn [effects] in Hm.
  - exact Hm.
  - specialize (Hf e w1). destruct (handler e w1) as [o w2 es2];
      cbn [effects] in Hf |- *.
    rewrite forallb_app, Hm, Hf. reflexivity.
Qed.

Lemma emits_getItem (p : effect -> bool) read key :
  p (EGetItem key) = true -> emits p (getItem read key).
Proof. intros He w. destruct read; cbn; rewrite He; reflexivity. Qed.

Ltac prove_emits :=
  repeat first
    [ apply emits_bind; [|intros ?]
    | apply emits_getItem; reflexivity
    | apply emits_try_catch; [|intros ?]
    | apply emits_ret
    | apply emits_lift
    | apply emits_perform; reflexivity
    | intros ?; reflexivity
    | match goal with
      | |- emits _ (if ?b then _ else _) => destruct b
      | |- emits _ (match ?x with _ => _ end) => destruct x
      end
    | progress unfold when, setLoading, setChat, setMessage, setImage,
        setScreen, setEmail, setPassword, alert, console_log, json,
        setItem, fetch, launchImageLibraryAsync ].

Lemma login_keeps_credentials net email password :
  emits keeps_credentials (login net email password).
Proof. unfold login. prove_emits. Qed.

Lemma signup_keeps_credentials net email password :
  emits keeps_credentials (signup net email password).
Proof. unfold signup. prove_emits. Qed.

Lemma sendMessage_keeps_credentials read net message image :
  emits keeps_credentials (sendMessage read net message image).
Proof. unfold sendMessage. prove_emits. Qed.

Lemma pickImage_keeps_credentials picker :
  emits keeps_credentials (pickImage picker).
Proof. unfold pickImage. prove_emits. Qed.

Lemma credentials_apply_effect e w :
  keeps_credentials e = true ->
  email (ui (apply_effect e w)) = email (ui w)
  /\ password (ui (apply_effect e w)) = password (ui w)
  /\ (screen (ui w) <> Auth -> screen (ui (apply_effect e w)) <> Auth).
Proof.
  destruct e as [[]| | | | | | | | | | | |]; intros [=];
    repeat split; auto; cbn; discriminate.
Qed.

Lemma credentials_replay es w :
  forallb keeps_credentials es = true ->
  email (ui (replay es w)) = email (ui w)
  /\ password (ui (replay es w)) = password (ui w)
  /\ (screen (ui w) <> Auth -> screen (ui (replay es w)) <> Auth).
Proof.
  revert w. induction es as [|e es IH]; intros w Hes; [auto|].
  cbn [forallb] in Hes. apply andb_true_iff in Hes as [He Hes].
  change (replay (e :: es) w) with (replay es (apply_effect e w)).
  destruct (IH (apply_effect e w) Hes) as (-> & -> & Hs).
  destruct (credentials_apply_effect e w He) as (-> & -> & Hs').
  auto.
Qed.

(** Apart from the two text inputs, no control writes the credential
    cells or leads to the auth screen. *)
Lemma handler_keeps_credentials s ev :
  edits_credentials ev = false -> emits keeps_credentials (handler s ev).
Proof.
  destruct ev; intros [=]; cbn [handler];
    first [ apply login_keeps_credentials
          | apply signup_keeps_credentials
          | apply sendMessage_keeps_credentials
          | apply pickImage_keeps_credentials
          | prove_emits ].
Qed.

Lemma dispatch_keeps_credentials ev w :
  edits_credentials ev = false \/ screen (ui w) <> Auth ->
  forallb keeps_credentials (effects (dispatch ev w)) = true.
Proof.
  intros H. unfold dispatch.
  destruct (edits_credentials ev) eqn:Hev.
  - destruct H as [[=]|Hs]. unfold enabled.
    destruct (screen (ui w)); [contradiction| | |];
      destruct ev; try discriminate Hev; reflexivity.
  - destruct (enabled (ui w) ev); [|reflexivity].
    apply handler_keeps_credentials, Hev.
Qed.

Lemma step_keeps_credentials ev w :
  edits_credentials ev = false \/ screen (ui w) <> Auth ->
  email (ui (step w ev)) = email (ui w)
  /\ password (ui (step w ev)) = password (ui w)
  /\ (screen (ui w) <> Auth -> screen (ui (step w ev)) <> Auth).
Proof.
  intros H. unfold step. rewrite dispatch_faithful.
  apply credentials_replay, dispatch_keeps_credentials, H.
Qed.

(** C9 (amended). No handler clears the credential cells.  A login, in
    every outcome, leaves [email] and [password] as they were; only the
    two text inputs of the auth screen change them; and once the screen
    is off the auth screen, every sequence of user actions leaves them
    as they were and never returns to the auth screen, so the
    credentials entered at login stay in the state for the rest of the
    session. *)
Theorem credentials_retained :
  (forall net e p w,
     let w' := after (login net e p w) in
     email (ui w') = email (ui w) /\ password (ui w') = password (ui w))
  /\ (forall ev w,
        edits_credentials ev = false ->
        email (ui (step w ev)) = email (ui w)
        /\ password (ui (step w ev)) = password (ui w))
  /\ (forall evs w,
        screen (ui w) <> Auth ->
        let w' := run_events evs w in
        screen (ui w') <> Auth
        /\ email (ui w') = email (ui w)
        /\ password (ui w') = password (ui w)).
Proof.
  split; [|split].
  - intros net e p w w'. subst w'. rewrite faithful_login.
    destruct (credentials_replay _ w (login_keeps_credentials net e p w))
      as (He & Hp & _).
    split; assumption.
  - intros ev w Hev.
    destruct (step_keeps_credentials ev w (or_introl Hev)) as (He & Hp & _).
    split; assumption.
  - intros evs. induction evs as [|ev evs IH]; intros w Hs w'; subst w'.
    + cbn. auto.
    + change (run_events (ev :: evs) w) with (run_events evs (step w ev)).
      destruct (step_keeps_credentials ev w (or_intror Hs))
        as (He & Hp & Hs').
      destruct (IH (step w ev) (Hs' Hs)) as (H1 & H2 & H3).
      split; [exact H1|]. split; congruence.
Qed.

(** ** Bodies that are not JSON

    [res.json()] rejects inside the [try] block, so the [catch] block
    answers for the body as it does for the transport. *)

Remark sendMessage_body_not_json net message image w res :
  sendable message image = true ->
  net (chat_request (read_item (storage w) (lit "token"))
         (formData message image))
    = Resolves res ->
  json_body res = None ->
  let r := sendMessage ReadResolves net message image w in
  loading (ui (after r)) = false
  /\ appended (after_fetch (effects r))
     = [ai_text (JStr (lit "Server not reachable"))].
Proof.
  intros Hs Hnet Hbody r. subst r.
  split; run_sendMessage Hs; simplify_eq; try absurd_case; reflexivity.
Qed.

Remark login_body_not_json net email password w res :
  net (auth_request "/auth/login" email password) = Resolves res ->
  ok res = true ->
  json_body res = None ->
  let r := login net email password w in
  after r = w /\ alerts (effects r) = [lit "Server not reachable"].
Proof.
  intros Hnet Hok Hbody r. subst r. unfold_handler.
  rewrite Hnet. exec. rewrite Hok. exec. rewrite Hbody. exec.
  destruct w. split; reflexivity.
Qed.

(** ** Scenarios *)

Example trim_hello : trim (lit "  hello ") = lit "hello".
Proof. reflexivity. Qed.

Example scenario_1 :
  formData (lit "hello") None = [(lit "message", FormText (lit "hello"))].
Proof. reflexivity. Qed.

Example scenario_2 :
  formData [] (Some (lit "file:///a.jpg"))
  = [(lit "image",
      FormFile (lit "file:///a.jpg") (lit "upload.jpg") (lit "image/jpeg"))].
Proof. reflexivity. Qed.

Example scenario_3 :
  after (login (answering login_ok) (lit "a@b.c") (lit "secret") initial_world)
  = {| ui := apply_ui (ESetScreen Home) initial_ui;
       storage := {[ lit "token" := lit "tok123" ]} |}.
Proof. reflexivity. Qed.

Example scenario_4 :
  chat (ui (after (sendMessage ReadResolves (answering token_expired)
                     (lit "hi") None initial_world)))
  = [user_text (lit "hi"); ai_text (JStr (lit "Error: token expired"))].
Proof. reflexivity. Qed.

Example body_not_json :
  chat (ui (after (sendMessage ReadResolves (answering not_json) (lit "hi")
                     None initial_world)))
  = [user_text (lit "hi"); ai_text (JStr (lit "Server not reachable"))].
Proof. reflexivity. Qed.

Example scenario_5 :
  ui (after (sendMessage ReadResolves unreachable (lit "hi") None
               initial_world))
  = {| screen := Auth; message := [];
       chat := [user_text (lit "hi");
                ai_text (JStr (lit "Server not reachable"))];
       image := None; email := []; password := []; loading := false |}.
Proof. reflexivity. Qed.

(** ** The claims at the sample inputs *)

Lemma sendMessage_success_witness :
  trim (lit " hi") <> []
  /\ ok reply_hello = true
  /\ chat (ui (after (sendMessage ReadResolves (answering reply_hello)
                        (lit " hi") None initial_world)))
     = [{| type := Text; value := JStr (lit " hi"); sender := User |};
        {| type := Text; value := JStr (lit "Hello"); sender := Ai |}].
Proof.
  assert (trim (lit " hi") <> []) as Ht by (vm_compute; discriminate).
  split; [exact Ht|]. split; [reflexivity|].
  exact (proj2 (proj2 (proj2
           (sendMessage_success (answering reply_hello) (lit " hi") None
              initial_world reply_hello _ (JStr (lit "Hello"))
              Ht eq_refl eq_refl eq_refl eq_refl)))).
Defined.

(** C1, as stated, fails: a 2xx response whose body is not JSON has no
    [reply] field, and the entry appended after it is the one of the
    [catch] block. *)
Lemma reply_not_carried :
  trim (lit "hi") <> []
  /\ ok not_json = true
  /\ json_body not_json = None
  /\ appended
       (after_fetch
          (effects (sendMessage ReadResolves (answering not_json) (lit "hi")
                      None initial_world)))
     = [{| type := Text; value := JStr (lit "Server not reachable");
           sender := Ai |}].
Proof.
  split; [vm_compute; discriminate|]. repeat split; reflexivity.
Qed.

Lemma sendMessage_nothing_to_send_witness :
  trim (lit "   ") = []
  /\ after (sendMessage ReadResolves unreachable (lit "   ") None
              initial_world)
     = initial_world.
Proof.
  split; [reflexivity|].
  apply (sendMessage_nothing_to_send ReadResolves unreachable (lit "   ")
           None initial_world); reflexivity.
Defined.



Lemma sendMessage_unreachable_witness :
  sendable (lit "hi") None = true
  /\ loading (ui (after (sendMessage ReadResolves unreachable (lit "hi") None
                           initial_world))) = false
  /\ appended
       (after_fetch
          (effects (sendMessage ReadResolves unreachable (lit "hi") None
                      initial_world)))
     = [{| type := Text; value := JStr (lit "Server not reachable");
           sender := Ai |}].
Proof.
  split; [reflexivity|].
  destruct (sendMessage_unreachable unreachable (lit "hi") None initial_world
              eq_refl eq_refl)
    as (Hloading & Hpost & _ & _).
  split; [exact Hloading | exact Hpost].
Defined.



Lemma sendMessage_request_body_witness :
  (sendable (lit "hello") None = true
   /\ requests (effects (sendMessage ReadResolves unreachable (lit "hello")
                           None initial_world))
      = [chat_request None [(lit "message", FormText (lit "hello"))]])
  /\ (sendable [] (Some (lit "file:///a.jpg")) = true
      /\ requests (effects (sendMessage ReadResolves unreachable []
                              (Some (lit "file:///a.jpg")) initial_world))
         = [chat_request None
              [(lit "image",
                FormFile (lit "file:///a.jpg") (lit "upload.jpg")
                  (lit "image/jpeg"))]]).
Proof.
  split; (split; [reflexivity|]).
  - exact (proj1 (sendMessage_request_body unreachable (lit "hello") None
                    initial_world eq_refl)).
  - exact (proj1 (sendMessage_request_body unreachable []
                    (Some (lit "file:///a.jpg")) initial_world eq_refl)).
Defined.


Lemma chat_append_only_witness :
  chat (ui (run_events
              [PressSend ReadResolves unreachable;
               ChangeMessage (lit "again");
               PressSend ReadResolves (answering reply_hello); PressGoBack]
              chatting))
  = chat (ui chatting)
    ++ [user_text (lit "hi"); ai_text (JStr (lit "Server not reachable"));
        user_text (lit "again"); ai_text (JStr (lit "Hello"))]
  /\ chat (ui chatting) `prefix_of`
       chat (ui (run_events
                   [PressSend ReadResolves unreachable;
                    ChangeMessage (lit "again");
                    PressSend ReadResolves (answering reply_hello);
                    PressGoBack]
                   chatting)).
Proof.
  split; [reflexivity|].
  exact (proj1 (proj2 (proj2 (proj2 chat_append_only)) _ chatting)).
Defined.

(** C9, as stated, fails: after a login that moves the screen from auth
    to home, both credential cells still hold what was typed. *)
Lemma credentials_not_cleared :
  screen (ui signing_in) = Auth
  /\ screen (ui (step signing_in (PressLogin (answering login_ok)))) = Home
  /\ email (ui (step signing_in (PressLogin (answering login_ok))))
     = lit "a@b.c"
  /\ password (ui (step signing_in (PressLogin (answering login_ok))))
     = lit "secret"
  /\ email (ui (step signing_in (PressLogin (answering login_ok)))) <> []
  /\ password (ui (step signing_in (PressLogin (answering login_ok)))) <> [].
Proof.
  repeat split; try reflexivity; vm_compute; discriminate.
Qed.

Lemma credentials_retained_witness :
  screen (ui (step signing_in (PressLogin (answering login_ok)))) <> Auth
  /\ email (ui (run_events [PressChat; ChangeMessage (lit "hi"); PressGoBack]
                  (step signing_in (PressLogin (answering login_ok)))))
     = email (ui (step signing_in (PressLogin (answering login_ok)))).
Proof.
  assert (screen (ui (step signing_in (PressLogin (answering login_ok))))
          <> Auth) as Hs by (vm_compute; discriminate).
  split; [exact Hs|].
  destruct (proj2 (proj2 credentials_retained)
              [PressChat; ChangeMessage (lit "hi"); PressGoBack] _ Hs)
    as (_ & He & _).
  exact He.
Defined.


(** * Further properties of the handlers *)

(** ** White space *)

Lemma trimStart_nil (s : jsstring) :
  trimStart s = [] <-> forallb is_white_space s = true.
Proof.
  induction s as [|c rest IH]; cbn [trimStart forallb]; [tauto|].
  destruct (is_white_space c); cbn [andb]; [exact IH|].
  split; discriminate.
Qed.

Lemma forallb_rev {A} (p : A -> bool) (l : list A) :
  forallb p (rev l) = forallb p l.
Proof.
  induction l as [|x l IH]; [reflexivity|].
  cbn [rev forallb]. rewrite forallb_app, IH. cbn [forallb].
  rewrite andb_true_r. apply andb_comm.
Qed.

(** [trimStart] drops a prefix made of white space. *)
Lemma trimStart_suffix (s : jsstring) :
  exists k, s = k ++ trimStart s /\ forallb is_white_space k = true.
Proof.
  induction s as [|c rest (k & Hk & Hws)]; [exists []; split; reflexivity|].
  cbn [trimStart]. destruct (is_white_space c) eqn:Hc.
  - exists (c :: k). cbn [app forallb]. rewrite Hc, Hws, <- Hk.
    split; reflexivity.
  - exists []. split; reflexivity.
Qed.

Lemma leading_trimStart (s : jsstring) :
  leading_white_space (trimStart s) = false.
Proof.
  induction s as [|c rest IH]; [reflexivity|].
  cbn [trimStart]. destruct (is_white_space c) eqn:Hc; [exact IH|].
  cbn [leading_white_space]. exact Hc.
Qed.

(** [trimEnd] keeps a prefix of its argument. *)
Lemma trimEnd_prefix (s : jsstring) :
  exists k, s = trimEnd s ++ k /\ forallb is_white_space k = true.
Proof.
  destruct (trimStart_suffix (rev s)) as (k & Hk & Hws).
  exists (rev k). split.
  - unfold trimEnd. rewrite <- rev_app_distr, <- Hk, rev_involutive.
    reflexivity.
  - rewrite forallb_rev. exact Hws.
Qed.

(** A string is blank for [trim] exactly when it is made of white
    space. *)
Lemma trim_nil (s : jsstring) :
  trim s = [] <-> forallb is_white_space s = true.
Proof.
  destruct (trimStart_suffix s) as (k & Hk & Hws).
  destruct (trimEnd_prefix (trimStart s)) as (k' & Hk' & Hws').
  fold (trim s) in Hk'. split.
  - intros Ht. rewrite Ht in Hk'. cbn [app] in Hk'.
    rewrite Hk, Hk', forallb_app, Hws, Hws'. reflexivity.
  - intros Hall. apply trimStart_nil in Hall.
    unfold trim. rewrite Hall. reflexivity.
Qed.

Lemma leading_trim (s : jsstring) : leading_white_space (trim s) = false.
Proof.
  destruct (trimEnd_prefix (trimStart s)) as (k & Hk & _).
  fold (trim s) in Hk. pose proof (leading_trimStart s) as Hl.
  destruct (trim s) as [|c rest]; [reflexivity|].
  rewrite Hk in Hl. exact Hl.
Qed.

Lemma trailing_trim (s : jsstring) : trailing_white_space (trim s) = false.
Proof.
  unfold trailing_white_space, trim, trimEnd. rewrite rev_involutive.
  apply leading_trimStart.
Qed.

(** ** What [sendMessage] refuses, and what it sends *)

Lemma sendable_false message image :
  sendable message image = false <->
  forallb is_white_space message = true
  /\ (image = None \/ image = Some []).
Proof.
  unfold sendable. rewrite orb_false_iff, falsy_trim, trim_nil.
  apply and_iff_compat_l.
  destruct image as [uri|]; cbn [of_nullable to_boolean].
  - rewrite negb_false_iff, bool_decide_eq_true. split.
    + intros ->. right. reflexivity.
    + intros [[=]|[= ->]]. reflexivity.
  - split; auto.
Qed.

(** When the token read resolves, [sendMessage] issues no request
    exactly when the text is made of white space only (or is empty) and
    the image cell is null or holds the empty string; it then does
    nothing but show the alert.  (Lines 23-26.) *)
Theorem sendMessage_refuses_iff net message image w :
  requests (effects (sendMessage ReadResolves net message image w)) = []
  <-> forallb is_white_space message = true
      /\ (image = None \/ image = Some []).
Proof.
  rewrite <- sendable_false. destruct (sendable message image) eqn:Hs.
  - rewrite sendMessage_requests by exact Hs. split; discriminate.
  - rewrite sendMessage_blank by exact Hs. split; reflexivity.
Qed.

(** The [message] field of a request is never empty and never starts
    or ends with white space.  (Lines 40-42.) *)
Theorem sent_message_is_trimmed read net message image w req parts text :
  req ∈ requests (effects (sendMessage read net message image w)) ->
  body req = FormData parts ->
  field (lit "message") parts = Some (FormText text) ->
  text <> []
  /\ leading_white_space text = false
  /\ trailing_white_space text = false
  /\ trim text = text.
Proof.
  intros Hreq Hbody Hfield.
  apply sendMessage_request_inv in Hreq as (_ & _ & ->).
  cbn [body chat_request] in Hbody. injection Hbody as <-.
  rewrite field_formData_message in Hfield.
  destruct (to_boolean (JStr (trim message))) eqn:Ht; [|discriminate].
  injection Hfield as <-. apply truthy_trim in Ht.
  split; [exact Ht|]. split; [apply leading_trim|].
  split; [apply trailing_trim|].
  pose proof (leading_trim message) as Hl.
  pose proof (trailing_trim message) as Hr.
  unfold trim at 1.
  assert (trimStart (trim message) = trim message) as ->.
  { destruct (trim message) as [|c rest]; [reflexivity|].
    cbn in Hl. cbn [trimStart]. rewrite Hl. reflexivity. }
  unfold trimEnd.
  assert (trimStart (rev (trim message)) = rev (trim message)) as ->.
  { unfold trailing_white_space in Hr.
    destruct (rev (trim message)) as [|c rest]; [reflexivity|].
    cbn in Hr. cbn [trimStart]. rewrite Hr. reflexivity. }
  apply rev_involutive.
Qed.

(** The multipart body of a request is never empty: it is the
    [message] field, the [image] field, or [message] followed by
    [image].  (Lines 37-50.) *)
Theorem sent_body_shape read net message image w req :
  req ∈ requests (effects (sendMessage read net message image w)) ->
  url req = API_URL ++ lit "/chat/send"
  /\ method req = lit "POST"
  /\ exists parts,
       body req = FormData parts
       /\ (parts.*1 = [lit "message"]
           \/ parts.*1 = [lit "image"]
           \/ parts.*1 = [lit "message"; lit "image"]).
Proof.
  intros Hreq.
  apply sendMessage_request_inv in Hreq as (_ & Hs & ->).
  split; [reflexivity|]. split; [reflexivity|].
  exists (formData message image). split; [reflexivity|].
  unfold sendable in Hs. unfold formData.
  destruct (to_boolean (JStr (trim message))), image as [uri|];
    cbn [of_nullable] in Hs |- *;
    try destruct (to_boolean (JStr uri));
    cbn in Hs |- *; try discriminate Hs; auto.
Qed.

(** The request carries the stored token as bearer; when the store has
    no token, or holds the empty string as token, the header reads
    ["Bearer null"].  (Lines 35, 56-62.) *)
Theorem sent_bearer read net message image w req :
  req ∈ requests (effects (sendMessage read net message image w)) ->
  (forall token,
     storage w !! lit "token" = Some token -> token <> [] ->
     headers req = [(lit "Authorization", lit "Bearer " ++ token)])
  /\ (storage w !! lit "token" = None
      \/ storage w !! lit "token" = Some [] ->
      headers req = [(lit "Authorization", lit "Bearer null")]).
Proof.
  intros Hreq.
  apply sendMessage_request_inv in Hreq as (_ & _ & ->).
  unfold chat_request, read_item. cbn [headers]. split.
  - intros token -> Hne. rewrite (bool_decide_eq_false_2 _ Hne).
    reflexivity.
  - intros [->| ->]; reflexivity.
Qed.

(** ** Every send is answered, unless the storage read fails *)

Lemma sendMessage_run net message image w :
  sendable message image = true ->
  outcome (sendMessage ReadResolves net message image w) = Normal tt
  /\ exists answer,
       last (effects (sendMessage ReadResolves net message image w))
       = Some (ESetChat answer)
       /\ type answer = Text
       /\ sender answer = Ai
       /\ appended (effects (sendMessage ReadResolves net message image w))
          = (if to_boolean (JStr (trim message))
             then [user_text message] else []) ++ [answer].
Proof.
  intros Hs.
  assert (forall o es,
            outcome (sendMessage ReadResolves net message image w) = o ->
            effects (sendMessage ReadResolves net message image w) = es ->
            o = Normal tt
            /\ exists answer,
                 last es = Some (ESetChat answer)
                 /\ type answer = Text /\ sender answer = Ai
                 /\ appended es
                    = (if to_boolean (JStr (trim message))
                       then [user_text message] else []) ++ [answer])
    as Hrun.
  { intros o es. run_sendMessage Hs; intros <- <-;
      (split; [reflexivity|]); eexists;
      (split; [reflexivity|]); (split; [reflexivity|]);
      (split; reflexivity). }
  exact (Hrun _ _ eq_refl eq_refl).
Qed.

Lemma sendMessage_loading_false net message image w :
  sendable message image = true ->
  loading (ui (after (sendMessage ReadResolves net message image w))) = false.
Proof.
  intros Hs. run_sendMessage Hs; reflexivity.
Qed.


(** The loading flag of a send that passes the guard and whose token
    read resolves: true when the request is issued, false already when
    the assistant's entry is appended, and false when the run ends, for
    every answer of the network.  (Lines 28, 64, 83.) *)
Theorem sendMessage_loading net message image w :
  sendable message image = true ->
  let r := sendMessage ReadResolves net message image w in
  loading (ui (replay (before_fetch (effects r)) w)) = true
  /\ (exists answer,
        last (effects r) = Some (ESetChat answer)
        /\ sender answer = Ai
        /\ loading (ui (replay (removelast (effects r)) w)) = false)
  /\ loading (ui (after r)) = false.
Proof.
  intros Hs r. subst r.
  split; [|split].
  - run_sendMessage Hs; reflexivity.
  - destruct (sendMessage_run net message image w Hs)
      as (_ & answer & Hl & _ & Hsd & _).
    exists answer. split; [exact Hl|]. split; [exact Hsd|].
    clear Hl Hsd. run_sendMessage Hs; reflexivity.
  - apply sendMessage_loading_false, Hs.
Qed.

(** A send that passes the guard and whose token read rejects: the
    handler rejects after line 35 with the loading flag raised and the
    user entry (if any) appended; no request is issued, no entry of the
    assistant is appended, and the pending text and image are not
    cleared.  (Lines 28-35: the read is outside the [try] block.) *)
Theorem sendMessage_read_fails net text picture w :
  sendable text picture = true ->
  let r := sendMessage ReadRejects net text picture w in
  outcome r = Throw StorageFailed
  /\ requests (effects r) = []
  /\ loading (ui (after r)) = true
  /\ chat (ui (after r))
     = chat (ui w)
       ++ (if to_boolean (JStr (trim text))
           then [{| type := Text; value := JStr text; sender := User |}]
           else [])
  /\ message (ui (after r)) = message (ui w)
  /\ image (ui (after r)) = image (ui w).
Proof.
  intros Hs r. subst r.
  rewrite sendMessage_read_rejected by exact Hs.
  destruct (to_boolean (JStr (trim text)));
    cbn; rewrite ?app_nil_r; repeat split; reflexivity.
Qed.

(** Effects that keep the session keep the screen, the credentials and
    the store; if they also keep the composition and the loading flag,
    the text and the flag stay too. *)
Lemma frame_replay es w :
  forallb keeps_session es = true ->
  screen (ui (replay es w)) = screen (ui w)
  /\ email (ui (replay es w)) = email (ui w)
  /\ password (ui (replay es w)) = password (ui w)
  /\ storage (replay es w) = storage w.
Proof.
  revert w. induction es as [|e es IH]; intros w Hes.
  - repeat split; reflexivity.
  - cbn [forallb] in Hes. apply andb_true_iff in Hes as [He Hes].
    change (replay (e :: es) w) with (replay es (apply_effect e w)).
    destruct (IH (apply_effect e w) Hes) as (-> & -> & -> & ->).
    destruct e; try discriminate He; repeat split; reflexivity.
Qed.

Lemma loading_replay es w :
  forallb keeps_loading es = true ->
  loading (ui (replay es w)) = loading (ui w).
Proof.
  revert w. induction es as [|e es IH]; intros w Hes; [reflexivity|].
  cbn [forallb] in Hes. apply andb_true_iff in Hes as [He Hes].
  change (replay (e :: es) w) with (replay es (apply_effect e w)).
  rewrite (IH _ Hes). destruct e; try discriminate He; reflexivity.
Qed.

Lemma sendMessage_keeps_session read net message image :
  emits keeps_session (sendMessage read net message image).
Proof. unfold sendMessage. prove_emits. Qed.

Lemma pickImage_keeps_session picker :
  emits keeps_session (pickImage picker).
Proof. unfold pickImage. prove_emits. Qed.

Lemma signup_keeps_session net email password :
  emits keeps_session (signup net email password).
Proof. unfold signup. prove_emits. Qed.

Lemma pickImage_keeps_loading picker :
  emits keeps_loading (pickImage picker).
Proof. unfold pickImage. prove_emits. Qed.

(** A send and an image pick stay inside the chat: whatever happens,
    they leave the screen, the credentials and the token store as they
    were; an image pick also leaves the text and the loading flag.
    (Lines 21-109.) *)
Theorem chat_handlers_keep_session :
  (forall read net message image w,
     let w' := after (sendMessage read net message image w) in
     screen (ui w') = screen (ui w)
     /\ email (ui w') = email (ui w)
     /\ password (ui w') = password (ui w)
     /\ storage w' = storage w)
  /\ (forall picker w,
        let w' := after (pickImage picker w) in
        screen (ui w') = screen (ui w)
        /\ email (ui w') = email (ui w)
        /\ password (ui w') = password (ui w)
        /\ storage w' = storage w
        /\ message (ui w') = message (ui w)
        /\ loading (ui w') = loading (ui w)).
Proof.
  split.
  - intros read net message image w w'. subst w'.
    rewrite faithful_sendMessage.
    apply frame_replay, sendMessage_keeps_session.
  - intros picker w w'. subst w'.
    pose proof (faithful_pickImage picker w) as Hf.
    destruct (frame_replay _ w (pickImage_keeps_session picker w))
      as (H1 & H2 & H3 & H4).
    pose proof (loading_replay _ w (pickImage_keeps_loading picker w)) as H5.
    rewrite <- Hf in H1, H2, H3, H4, H5.
    split; [exact H1|]. split; [exact H2|]. split; [exact H3|].
    split; [exact H4|]. split; [|exact H5].
    unfold_handler. destruct picker as [[c a]|e]; exec;
      [destruct c; exec; [|destruct a; exec]|]; reflexivity.
Qed.

(** ** Bodies the handler cannot read, and fields that are missing *)


Lemma assoc_missing key (fields : list (jsstring * jsval)) :
  key ∉ fields.*1 -> assoc key fields = JUndefined.
Proof.
  induction fields as [|[k v] rest IH]; [reflexivity|].
  cbn [fmap list_fmap fst assoc]. intros Hk.
  apply not_elem_of_cons in Hk as [Hne Hk].
  rewrite bool_decide_eq_false_2 by congruence. apply IH, Hk.
Qed.

(** A 2xx response whose body is a JSON object without a [reply] key
    still appends the assistant's entry: its value is [undefined].
    (Lines 75-81.) *)
Theorem sendMessage_reply_missing net message image w res fields :
  sendable message image = true ->
  net (chat_request (read_item (storage w) (lit "token"))
         (formData message image))
    = Resolves res ->
  ok res = true ->
  json_body res = Some (JObj fields) ->
  lit "reply" ∉ fields.*1 ->
  appended (after_fetch
              (effects (sendMessage ReadResolves net message image w)))
  = [{| type := Text; value := JUndefined; sender := Ai |}].
Proof.
  intros Hs Hnet Hok Hbody Hkey.
  pose proof (assoc_missing _ _ Hkey) as Hassoc.
  run_sendMessage Hs; simplify_eq; try absurd_case;
    match goal with
    | H : get_prop (JObj _) _ = _ |- _ =>
        cbn [get_prop] in H; rewrite Hassoc in H; simplify_eq
    end; reflexivity.
Qed.



(** ** [pickImage] *)

(** When the picker returns an asset, its URI becomes the pending
    image and one image/user entry with that URI is appended to the
    conversation at once; only the first asset counts, no request is
    issued and nothing else changes.  (Lines 99-108.) *)
Theorem pickImage_picked first rest w :
  let r := pickImage (Normal {| canceled := false;
                                assets := first :: rest |}) w in
  outcome r = Normal tt
  /\ ui (after r)
     = {| screen := screen (ui w); message := message (ui w);
          chat := chat (ui w) ++ [user_image (asset_uri first)];
          image := Some (asset_uri first);
          email := email (ui w); password := password (ui w);
          loading := loading (ui w) |}
  /\ storage (after r) = storage w
  /\ requests (effects r) = []
  /\ alerts (effects r) = [].
Proof. cbv zeta. repeat split; reflexivity. Qed.

(** When the user cancels, when the picker itself fails, or when the
    result has no asset, [pickImage] changes nothing and appends
    nothing; in the last two cases the handler rejects.
    (Lines 95-99.) *)
Theorem pickImage_nothing_picked picker w :
  match picker with
  | Normal result => canceled result = true \/ assets result = []
  | Throw _ => True
  end ->
  let r := pickImage picker w in
  after r = w
  /\ appended (effects r) = []
  /\ requests (effects r) = []
  /\ (outcome r = Normal tt <->
      exists result, picker = Normal result /\ canceled result = true).
Proof.
  intros Hp r. subst r. unfold_handler.
  destruct picker as [[c a]|e]; exec; cbn [canceled assets] in *.
  - destruct c; exec.
    + destruct w. repeat split; try reflexivity. eauto.
    + destruct Hp as [[=] | ->]. exec. destruct w.
      repeat split; try reflexivity; try discriminate.
      intros (result & [= <-] & [=]).
  - destruct w. repeat split; try reflexivity; try discriminate.
    intros (result & [=] & _).
Qed.

(** ** [signup] and [login] *)

(** [signup] never rejects and never changes the state or the store,
    not even on success: it posts the credentials once to
    [/auth/signup] and shows exactly one alert, chosen by the answer.
    The body of the response is never read.  (Lines 115-132.) *)
Theorem signup_outcomes net email password w :
  let r := signup net email password w in
  outcome r = Normal tt
  /\ after r = w
  /\ requests (effects r) = [auth_request "/auth/signup" email password]
  /\ (net (auth_request "/auth/signup" email password) = Rejects ->
      alerts (effects r) = [lit "Server not reachable"])
  /\ (forall res,
        net (auth_request "/auth/signup" email password) = Resolves res ->
        alerts (effects r)
        = [if ok res then lit "Signup successful, please login"
           else lit "Signup failed"]).
Proof.
  cbv zeta. unfold_handler.
  destruct (net (auth_request "/auth/signup" email password))
    as [|res] eqn:Hnet; exec.
  - destruct w. repeat split; try reflexivity. discriminate.
  - destruct (ok res) eqn:Hok; exec; destruct w;
      repeat split; try reflexivity; try discriminate;
      intros res' [= <-]; rewrite Hok; reflexivity.
Qed.

(** [login] never rejects and posts the credentials once to
    [/auth/login].  Either it shows exactly one alert,
    ["Invalid credentials"] or ["Server not reachable"], and leaves the
    state and the store as they were; or it shows no alert, has stored a
    token and has set the screen to home.  So the screen never moves
    without a token in the store.  A request that throws is answered
    with ["Server not reachable"].  (Lines 134-154.) *)
Theorem login_outcomes net email password w :
  let r := login net email password w in
  outcome r = Normal tt
  /\ requests (effects r) = [auth_request "/auth/login" email password]
  /\ ((after r = w
       /\ (alerts (effects r) = [lit "Invalid credentials"]
           \/ alerts (effects r) = [lit "Server not reachable"]))
      \/ (alerts (effects r) = []
          /\ exists token,
               after r
               = {| ui := apply_ui (ESetScreen Home) (ui w);
                    storage := <[lit "token" := token]> (storage w) |}))
  /\ (net (auth_request "/auth/login" email password) = Rejects ->
      after r = w /\ alerts (effects r) = [lit "Server not reachable"]).
Proof.
  cbv zeta. unfold_handler.
  destruct (net (auth_request "/auth/login" email password))
    as [|res] eqn:Hnet; exec.
  - destruct w. repeat split; try reflexivity. left. auto.
  - destruct (ok res); exec.
    + destruct (json_body res) as [data|]; exec.
      * destruct (get_prop data (lit "access_token")) as [token|]; exec.
        -- destruct token; exec; destruct w;
             (split; [reflexivity|]); (split; [reflexivity|]);
             (split; [|discriminate]);
             first [ left; split; [reflexivity|]; right; reflexivity
                   | right; split; [reflexivity|]; eexists; reflexivity ].
        -- destruct w. repeat split; try reflexivity; try discriminate.
           left. auto.
      * destruct w. repeat split; try reflexivity; try discriminate.
        left. auto.
    + destruct w. repeat split; try reflexivity; try discriminate.
      left. auto.
Qed.

(** A 2xx answer to [login] whose body is not JSON, or is the JSON
    [null], logs nobody in: the alert reads ["Server not reachable"] and
    the screen and the store are as before.  (Lines 147-153.) *)
Theorem login_unreadable_body net email password w res :
  net (auth_request "/auth/login" email password) = Resolves res ->
  ok res = true ->
  unreadable res = true ->
  let r := login net email password w in
  after r = w /\ alerts (effects r) = [lit "Server not reachable"].
Proof.
  intros Hnet Hok Hbody r. subst r. unfold unreadable in Hbody.
  unfold_handler. rewrite Hnet. exec. rewrite Hok. exec.
  destruct (json_body res) as [[]|]; try discriminate Hbody; exec;
    destruct w; split; reflexivity.
Qed.

(** ** Picking and sending together *)

Lemma step_pick uri w :
  screen (ui w) = Chat -> loading (ui w) = false ->
  step w (PressSendImage (picked uri))
  = {| ui := {| screen := Chat; message := message (ui w);
                chat := chat (ui w) ++ [user_image uri];
                image := Some uri;
                email := email (ui w); password := password (ui w);
                loading := false |};
       storage := storage w |}.
Proof.
  destruct w as [[s m c i e p l] st]. cbn [ui screen loading].
  intros -> ->. reflexivity.
Qed.

Lemma dispatch_send read net w :
  screen (ui w) = Chat -> loading (ui w) = false ->
  dispatch (PressSend read net) w
  = sendMessage read net (message (ui w)) (image (ui w)) w.
Proof.
  intros Hs Hl. unfold dispatch, enabled. rewrite Hs, Hl. reflexivity.
Qed.


(** Picking twice before sending: both pictures are shown in the
    conversation, but only the second is pending, so a send posts the
    second and the first is never sent.  (Lines 99-108.) *)
Theorem pick_twice uri1 uri2 w :
  screen (ui w) = Chat ->
  loading (ui w) = false ->
  let w2 := run_events [PressSendImage (picked uri1);
                        PressSendImage (picked uri2)] w in
  image (ui w2) = Some uri2
  /\ chat (ui w2) = chat (ui w) ++ [user_image uri1; user_image uri2]
  /\ forall read net req,
       req ∈ requests (effects (dispatch (PressSend read net) w2)) ->
       body req = FormData (formData (message (ui w)) (Some uri2)).
Proof.
  intros Hs Hl w2. subst w2. cbn [run_events fold_left].
  rewrite (step_pick uri1 w Hs Hl), step_pick by reflexivity.
  cbn [ui message image chat storage email password].
  split; [reflexivity|]. split; [rewrite <- app_assoc; reflexivity|].
  intros read net req Hreq. rewrite dispatch_send in Hreq by reflexivity.
  cbn [ui message image] in Hreq.
  apply sendMessage_request_inv in Hreq as (_ & _ & ->). reflexivity.
Qed.

(** ** Navigation *)

Lemma signup_after net email password w :
  after (signup net email password w) = w.
Proof.
  unfold_handler.
  destruct (net (auth_request "/auth/signup" email password)) as [|res];
    exec; [|destruct (ok res); exec]; destruct w; reflexivity.
Qed.

Lemma login_after net email password w :
  after (login net email password w) = w
  \/ exists token,
       after (login net email password w)
       = {| ui := apply_ui (ESetScreen Home) (ui w);
            storage := <[lit "token" := token]> (storage w) |}.
Proof.
  unfold_handler.
  destruct (net (auth_request "/auth/login" email password)) as [|res];
    exec; [destruct w; auto|].
  destruct (ok res); exec; [|destruct w; auto].
  destruct (json_body res) as [data|]; exec; [|destruct w; auto].
  destruct (get_prop data (lit "access_token")) as [token|]; exec;
    [|destruct w; auto].
  destruct token; exec; destruct w; eauto.
Qed.

Lemma step_disabled ev w : enabled (ui w) ev = false -> step w ev = w.
Proof. intros H. unfold step, dispatch. rewrite H. reflexivity. Qed.

(** The screens and the moves between them.  One user action either
    keeps the screen or makes one of five moves: auth to home by a
    login, home to chat or to emergency by its button, chat or emergency
    back to home.  There is no move to auth, none between chat and
    emergency, and none out of auth but by login.  (Lines 111-280.) *)
Theorem screen_moves ev w :
  screen (ui (step w ev)) = screen (ui w)
  \/ match screen (ui w), screen (ui (step w ev)) with
     | Auth, Home => exists net, ev = PressLogin net
     | Home, Chat => ev = PressChat
     | Home, Emergency => ev = PressEmergency
     | Chat, Home | Emergency, Home => ev = PressGoBack
     | _, _ => False
     end.
Proof.
  destruct (enabled (ui w) ev) eqn:Hen;
    [|left; rewrite step_disabled by exact Hen; reflexivity].
  unfold step, dispatch. rewrite Hen. unfold enabled in Hen.
  destruct ev; cbn [handler].
  1-2, 7: left; reflexivity.
  - destruct (login_after net (email (ui w)) (password (ui w)) w)
      as [->|[token ->]]; [left; reflexivity|].
    destruct (screen (ui w)); try discriminate Hen. right. cbn. eauto.
  - left. rewrite signup_after. reflexivity.
  - destruct (screen (ui w)); try discriminate Hen. right. reflexivity.
  - destruct (screen (ui w)); try discriminate Hen. right. reflexivity.
  - left. rewrite faithful_sendMessage.
    apply frame_replay, sendMessage_keeps_session.
  - left. rewrite faithful_pickImage.
    apply frame_replay, pickImage_keeps_session.
  - destruct (screen (ui w)); try discriminate Hen; right; reflexivity.
Qed.

(** Leaving the chat and coming back loses nothing: the conversation,
    the typed text and the pending image are as before; likewise for a
    visit to the chat or to the emergency screen from home.
    (Lines 257, 269, 277-278.) *)
Theorem navigation_round_trip w :
  loading (ui w) = false ->
  (screen (ui w) = Chat -> run_events [PressGoBack; PressChat] w = w)
  /\ (screen (ui w) = Home -> run_events [PressChat; PressGoBack] w = w)
  /\ (screen (ui w) = Home ->
      run_events [PressEmergency; PressGoBack] w = w)
  /\ (screen (ui w) = Emergency ->
      run_events [PressGoBack; PressEmergency] w = w).
Proof.
  intros Hl. destruct w as [[s m c i e p l] st]. cbn in Hl. subst l.
  repeat split; cbn; intros ->; reflexivity.
Qed.

(** ** Invariants of a session *)

Lemma run_events_cons ev evs w :
  run_events (ev :: evs) w = run_events evs (step w ev).
Proof. reflexivity. Qed.

Lemma run_events_snoc evs ev w :
  run_events (evs ++ [ev]) w = step (run_events evs w) ev.
Proof. unfold run_events. rewrite fold_left_app. reflexivity. Qed.

Lemma handler_writes_token_only s ev :
  emits writes_token_only (handler s ev).
Proof.
  destruct ev; cbn [handler];
    unfold sendMessage, pickImage, signup, login; prove_emits.
Qed.

Lemma storage_replay es w key :
  forallb writes_token_only es = true ->
  (key <> lit "token" -> storage (replay es w) !! key = storage w !! key)
  /\ (is_Some (storage w !! key) -> is_Some (storage (replay es w) !! key)).
Proof.
  revert w. induction es as [|e es IH]; intros w Hes; [split; auto|].
  cbn [forallb] in Hes. apply andb_true_iff in Hes as [He Hes].
  change (replay (e :: es) w) with (replay es (apply_effect e w)).
  destruct (IH (apply_effect e w) Hes) as [Hother Hsome].
  split.
  - intros Hk. rewrite (Hother Hk).
    destruct e; try reflexivity. cbn in He |- *.
    apply bool_decide_eq_true in He. subst key0.
    apply lookup_insert_ne. congruence.
  - intros Hk. apply Hsome.
    destruct e; try exact Hk. cbn.
    destruct (decide (key0 = key)) as [->|Hne].
    + rewrite lookup_insert_eq. eauto.
    + rewrite lookup_insert_ne by exact Hne. exact Hk.
Qed.

Lemma storage_step ev w key :
  (key <> lit "token" -> storage (step w ev) !! key = storage w !! key)
  /\ (is_Some (storage w !! key) -> is_Some (storage (step w ev) !! key)).
Proof.
  unfold step. rewrite dispatch_faithful. apply storage_replay.
  unfold dispatch. destruct (enabled (ui w) ev); [|reflexivity].
  apply handler_writes_token_only.
Qed.

(** The store over a session: no sequence of user actions touches a
    key other than ["token"], and a stored token is never removed
    (there is no logout).  (Lines 35 and 148 are the only uses of
    AsyncStorage.) *)
Theorem store_only_gains_token evs w :
  (forall key, key <> lit "token" ->
     storage (run_events evs w) !! key = storage w !! key)
  /\ (is_Some (storage w !! lit "token") ->
      is_Some (storage (run_events evs w) !! lit "token")).
Proof.
  revert w. induction evs as [|ev evs IH]; intros w; [split; auto|].
  rewrite run_events_cons. destruct (IH (step w ev)) as [Hother Hsome].
  split.
  - intros key Hk. rewrite (Hother key Hk).
    apply (storage_step ev w key), Hk.
  - intros Hk. apply Hsome, (storage_step ev w), Hk.
Qed.

Lemma signed_in_step ev w :
  (screen (ui w) <> Auth -> is_Some (storage w !! lit "token")) ->
  screen (ui (step w ev)) <> Auth ->
  is_Some (storage (step w ev) !! lit "token").
Proof.
  intros Hinv Hs'.
  assert (screen (ui w) = Auth \/ screen (ui w) <> Auth) as [Hauth|Hoff]
    by (destruct (screen (ui w)); [left; reflexivity | right; discriminate..]);
    [|apply (storage_step ev w), Hinv, Hoff].
  destruct (enabled (ui w) ev) eqn:Hen;
    [|rewrite step_disabled in Hs' by exact Hen; contradiction].
  unfold step, dispatch in Hs' |- *. rewrite Hen in Hs' |- *.
  unfold enabled in Hen. rewrite Hauth in Hen.
  destruct ev; try discriminate Hen; cbn [handler] in Hs' |- *.
  - cbn in Hs'. contradiction.
  - cbn in Hs'. contradiction.
  - destruct (login_after net (email (ui w)) (password (ui w)) w)
      as [Heq|[token Heq]]; rewrite Heq in Hs' |- *; [contradiction|].
    cbn [storage]. rewrite lookup_insert_eq. eauto.
  - rewrite signup_after in Hs'. contradiction.
Qed.

Lemma signed_in_run_events evs w :
  (screen (ui w) <> Auth -> is_Some (storage w !! lit "token")) ->
  screen (ui (run_events evs w)) <> Auth ->
  is_Some (storage (run_events evs w) !! lit "token").
Proof.
  revert w. induction evs as [|ev evs IH]; intros w Hinv; [exact Hinv|].
  rewrite run_events_cons. apply IH. apply signed_in_step, Hinv.
Qed.

(** Off the auth screen there is a token.  In a session that starts in
    a state where this holds (the initial state is one), it holds after
    every sequence of user actions: the only way out of the auth screen
    is a login that has stored a token.  (Lines 134-154, 111-183.) *)
Theorem signed_in_invariant evs w :
  (screen (ui w) <> Auth -> is_Some (storage w !! lit "token")) ->
  screen (ui (run_events evs w)) <> Auth ->
  is_Some (storage (run_events evs w) !! lit "token").
Proof. apply signed_in_run_events. Qed.

(** In a session that starts from the initial state, whenever the send
    button issues a request the store holds a token, and the request
    carries it as bearer; only a token stored as the empty string is
    sent as ["Bearer null"].  (Lines 35, 56-62, 248.) *)
Theorem session_requests_carry_token evs read net req :
  req ∈ requests (effects (dispatch (PressSend read net)
                             (run_events evs initial_world))) ->
  exists token,
    storage (run_events evs initial_world) !! lit "token" = Some token
    /\ headers req
       = [(lit "Authorization",
           lit "Bearer "
           ++ (if bool_decide (token = []) then lit "null" else token))].
Proof.
  set (w := run_events evs initial_world). intros Hreq.
  unfold dispatch in Hreq.
  destruct (enabled (ui w) (PressSend read net)) eqn:Hen;
    [|cbn in Hreq; apply elem_of_nil in Hreq; contradiction].
  cbn [handler] in Hreq.
  assert (screen (ui w) <> Auth) as Hoff.
  { unfold enabled in Hen. destruct (screen (ui w)); discriminate. }
  destruct (signed_in_run_events evs initial_world) as [token Htoken];
    [intros H; exfalso; apply H; reflexivity | exact Hoff |].
  fold w in Htoken. exists token. split; [exact Htoken|].
  apply sendMessage_request_inv in Hreq as (_ & _ & ->).
  unfold chat_request, read_item. cbn [headers]. rewrite Htoken.
  destruct (bool_decide (token = [])); reflexivity.
Qed.

Lemma loading_step ev w :
  read_resolves ev = true ->
  loading (ui w) = false -> loading (ui (step w ev)) = false.
Proof.
  intros Hev Hl. unfold step, dispatch.
  destruct (enabled (ui w) ev); [|exact Hl].
  destruct ev; cbn [handler]; try exact Hl.
  - destruct (login_after net (email (ui w)) (password (ui w)) w)
      as [->|[token ->]]; exact Hl.
  - rewrite signup_after. exact Hl.
  - destruct read; [discriminate Hev|].
    destruct (sendable (message (ui w)) (image (ui w))) eqn:Hs.
    + apply sendMessage_loading_false, Hs.
    + rewrite sendMessage_blank by exact Hs. exact Hl.
  - rewrite faithful_pickImage, loading_replay; [exact Hl|].
    apply pickImage_keeps_loading.
Qed.

(** As long as the token reads of the sends resolve, no user action
    leaves the loading flag raised: from a state where it is false, it
    is false after every such sequence of actions, so the send button,
    the image button and the back button are enabled again after every
    send.  (Lines 28, 64, 83, 248-257.) *)
Theorem loading_never_stuck evs w :
  forallb read_resolves evs = true ->
  loading (ui w) = false -> loading (ui (run_events evs w)) = false.
Proof.
  revert w. induction evs as [|ev evs IH]; intros w Hevs Hl; [exact Hl|].
  cbn [forallb] in Hevs. apply andb_true_iff in Hevs as [Hev Hevs].
  rewrite run_events_cons. apply IH; [exact Hevs|].
  apply loading_step; assumption.
Qed.

Lemma wedged_step ev w :
  screen (ui w) = Chat -> loading (ui w) = true ->
  screen (ui (step w ev)) = Chat
  /\ loading (ui (step w ev)) = true
  /\ chat (ui (step w ev)) = chat (ui w)
  /\ image (ui (step w ev)) = image (ui w)
  /\ storage (step w ev) = storage w.
Proof.
  destruct w as [[s m c i e p l] st]. cbn [ui screen loading].
  intros -> ->. destruct ev; repeat split; reflexivity.
Qed.

(** One token read that rejects wedges the chat screen.  After a send
    that passes the guard and whose read rejects, the loading flag is
    raised and nothing lowers it: whatever the user does next, the flag
    stays raised, the screen stays on chat (send, image and back are
    disabled), and the conversation, the pending image and the store no
    longer change.  (Lines 28-35, 220-257.) *)
Theorem rejected_read_wedges_chat net evs w :
  screen (ui w) = Chat ->
  loading (ui w) = false ->
  sendable (message (ui w)) (image (ui w)) = true ->
  let w1 := step w (PressSend ReadRejects net) in
  loading (ui w1) = true
  /\ loading (ui (run_events evs w1)) = true
  /\ screen (ui (run_events evs w1)) = Chat
  /\ chat (ui (run_events evs w1)) = chat (ui w1)
  /\ image (ui (run_events evs w1)) = image (ui w1)
  /\ storage (run_events evs w1) = storage w1.
Proof.
  intros Hs Hl Hsend w1.
  assert (screen (ui w1) = Chat /\ loading (ui w1) = true) as [Hs1 Hl1].
  { subst w1. unfold step. rewrite dispatch_send by assumption.
    rewrite sendMessage_read_rejected by exact Hsend. cbn [after].
    destruct (to_boolean (JStr (trim (message (ui w))))); cbn;
      split; first [exact Hs | reflexivity]. }
  split; [exact Hl1|]. clearbody w1. clear Hs Hl Hsend.
  revert w1 Hs1 Hl1. induction evs as [|ev evs IH]; intros w1 Hs1 Hl1.
  - repeat split; assumption.
  - rewrite run_events_cons.
    destruct (wedged_step ev w1 Hs1 Hl1) as (Hs2 & Hl2 & Hc & Hi & Hst).
    destruct (IH (step w1 ev) Hs2 Hl2) as (H1 & H2 & H3 & H4 & H5).
    repeat split; congruence.
Qed.

Lemma appended_step_well_formed ev w :
  forallb well_formed_entry (appended (effects (dispatch ev w))) = true.
Proof.
  unfold dispatch. destruct (enabled (ui w) ev); [|reflexivity].
  destruct ev; cbn [handler]; try reflexivity.
  - unfold_handler.
    destruct (net (auth_request "/auth/login" (email (ui w))
                     (password (ui w)))) as [|res]; exec; [reflexivity|].
    destruct (ok res); exec; [|reflexivity].
    destruct (json_body res) as [data|]; exec; [|reflexivity].
    destruct (get_prop data (lit "access_token")) as [token|]; exec;
      [|reflexivity].
    destruct token; reflexivity.
  - unfold_handler.
    destruct (net (auth_request "/auth/signup" (email (ui w))
                     (password (ui w)))) as [|res]; exec; [reflexivity|].
    destruct (ok res); reflexivity.
  - destruct (sendable (message (ui w)) (image (ui w))) eqn:Hs;
      [|rewrite sendMessage_blank by exact Hs; reflexivity].
    assert (forallb well_formed_entry
              (if to_boolean (JStr (trim (message (ui w))))
               then [user_text (message (ui w))] else []) = true) as Huser.
    { destruct (to_boolean (JStr (trim (message (ui w))))) eqn:Hm;
        [|reflexivity].
      cbn. cbn [to_boolean] in Hm. rewrite Hm. reflexivity. }
    destruct read.
    + rewrite sendMessage_read_rejected by exact Hs. cbn [effects].
      destruct (to_boolean (JStr (trim (message (ui w)))));
        cbn [app appended forallb] in Huser |- *;
        rewrite ?andb_true_r in Huser |- *; first [exact Huser | reflexivity].
    + destruct (sendMessage_run net (message (ui w)) (image (ui w)) w Hs)
        as (_ & answer & _ & Ht & Hsd & ->).
      rewrite forallb_app. apply andb_true_iff. split; [exact Huser|].
      unfold well_formed_entry. cbn [forallb]. rewrite Ht, Hsd.
      reflexivity.
  - unfold_handler. destruct picker as [[c a]|e]; exec; [|reflexivity].
    destruct c; exec; [reflexivity|]. destruct a; reflexivity.
Qed.

(** The shapes of the conversation's entries: a text of the user that
    is not blank, a picture of the user at a URI, or a text of the
    assistant.  If every entry of the log has one of these shapes, so
    has every entry after any sequence of user actions; in particular
    the assistant never contributes a picture and the user never an
    empty bubble.  (Lines 31-33, 68-71, 78-81, 85-88, 104-107.) *)
Theorem entries_well_formed evs w :
  forallb well_formed_entry (chat (ui w)) = true ->
  forallb well_formed_entry (chat (ui (run_events evs w))) = true.
Proof.
  revert w. induction evs as [|ev evs IH]; intros w Hw; [exact Hw|].
  rewrite run_events_cons. apply IH.
  unfold step. rewrite dispatch_faithful, chat_replay, forallb_app, Hw.
  apply appended_step_well_formed.
Qed.

(** ** The further properties at sample inputs *)

Lemma sendMessage_refuses_iff_witness :
  forallb is_white_space [32; 10; 9] = true
  /\ requests (effects (sendMessage ReadResolves unreachable [32; 10; 9]
                          (Some []) initial_world)) = [].
Proof.
  split; [reflexivity|].
  apply (proj2 (sendMessage_refuses_iff unreachable [32; 10; 9] (Some [])
                  initial_world)).
  split; [reflexivity | right; reflexivity].
Defined.

Lemma sent_message_is_trimmed_witness :
  lit "hi" <> [] /\ trim (lit "hi") = lit "hi".
Proof.
  destruct (sent_message_is_trimmed ReadResolves unreachable
              [32; 104; 105; 10] None initial_world
              (chat_request None [(lit "message", FormText (lit "hi"))])
              [(lit "message", FormText (lit "hi"))] (lit "hi")
              (list_elem_of_here _ _) eq_refl eq_refl)
    as (Hne & _ & _ & Htrim).
  split; [exact Hne | exact Htrim].
Defined.

Lemma sent_body_shape_witness :
  exists parts,
    body (chat_request (Some (lit "tok123"))
            (formData (lit "hi") (Some (lit "file:///a.jpg"))))
    = FormData parts
    /\ (parts.*1 = [lit "message"]
        \/ parts.*1 = [lit "image"]
        \/ parts.*1 = [lit "message"; lit "image"]).
Proof.
  exact (proj2 (proj2
           (sent_body_shape ReadResolves unreachable (lit "hi")
              (Some (lit "file:///a.jpg")) chatting
              (chat_request (Some (lit "tok123"))
                 (formData (lit "hi") (Some (lit "file:///a.jpg"))))
              (list_elem_of_here _ _)))).
Defined.

Lemma sent_bearer_witness :
  headers (chat_request None (formData (lit "hi") None))
  = [(lit "Authorization", lit "Bearer null")]
  /\ headers (chat_request (Some (lit "tok123")) (formData (lit "hi") None))
     = [(lit "Authorization", lit "Bearer tok123")].
Proof.
  split.
  - exact (proj2 (sent_bearer ReadResolves unreachable (lit "hi") None
                    {| ui := initial_ui;
                       storage := {[ lit "token" := [] ]} |}
                    (chat_request None (formData (lit "hi") None))
                    (list_elem_of_here _ _)) (or_intror eq_refl)).
  - assert (lit "tok123" <> []) as Hne by discriminate.
    exact (proj1 (sent_bearer ReadResolves unreachable (lit "hi") None
                    chatting
                    (chat_request (Some (lit "tok123"))
                       (formData (lit "hi") None))
                    (list_elem_of_here _ _)) (lit "tok123") eq_refl Hne).
Defined.


Lemma sendMessage_loading_witness :
  sendable (lit "hi") None = true
  /\ loading (ui (replay
                    (before_fetch
                       (effects (sendMessage ReadResolves
                                   (answering token_expired)
                                   (lit "hi") None chatting)))
                    chatting)) = true
  /\ loading (ui (after (sendMessage ReadResolves (answering token_expired)
                           (lit "hi") None chatting))) = false.
Proof.
  split; [reflexivity|].
  destruct (sendMessage_loading (answering token_expired) (lit "hi") None
              chatting eq_refl) as (Hup & _ & Hdown).
  split; [exact Hup | exact Hdown].
Defined.

Lemma sendMessage_read_fails_witness :
  sendable (lit "hi") None = true
  /\ loading (ui (after (sendMessage ReadRejects (answering reply_hello)
                           (lit "hi") None chatting))) = true
  /\ requests (effects (sendMessage ReadRejects (answering reply_hello)
                          (lit "hi") None chatting)) = [].
Proof.
  split; [reflexivity|].
  destruct (sendMessage_read_fails (answering reply_hello) (lit "hi") None
              chatting eq_refl) as (_ & Hreq & Hl & _).
  split; [exact Hl | exact Hreq].
Defined.


Lemma sendMessage_reply_missing_witness :
  (lit "reply" ∉ [lit "answer"])
  /\ appended
       (after_fetch
          (effects (sendMessage ReadResolves (answering no_reply) (lit "hi")
                      None chatting)))
     = [{| type := Text; value := JUndefined; sender := Ai |}].
Proof.
  assert (lit "reply" ∉ [lit "answer"]) as Hkey.
  { intros H. apply list_elem_of_singleton in H. discriminate H. }
  split; [exact Hkey|].
  exact (sendMessage_reply_missing (answering no_reply) (lit "hi") None
           chatting no_reply [(lit "answer", JStr (lit "Hello"))]
           eq_refl eq_refl eq_refl eq_refl Hkey).
Defined.


Lemma pickImage_nothing_picked_witness :
  after (pickImage (Normal {| canceled := true; assets := [] |}) chatting)
  = chatting
  /\ after (pickImage (Throw PickerFailed) chatting) = chatting.
Proof.
  split.
  - exact (proj1 (pickImage_nothing_picked
                    (Normal {| canceled := true; assets := [] |}) chatting
                    (or_introl eq_refl))).
  - exact (proj1 (pickImage_nothing_picked (Throw PickerFailed) chatting I)).
Defined.

Lemma signup_outcomes_witness :
  alerts (effects (signup unreachable (lit "a@b.c") (lit "secret")
                     signing_in))
  = [lit "Server not reachable"]
  /\ alerts (effects (signup (answering login_ok) (lit "a@b.c")
                        (lit "secret") signing_in))
     = [lit "Signup successful, please login"]
  /\ alerts (effects (signup (answering login_refused) (lit "a@b.c")
                        (lit "secret") signing_in))
     = [lit "Signup failed"].
Proof.
  split; [|split].
  - exact (proj1 (proj2 (proj2 (proj2
             (signup_outcomes unreachable (lit "a@b.c") (lit "secret")
                signing_in)))) eq_refl).
  - exact (proj2 (proj2 (proj2 (proj2
             (signup_outcomes (answering login_ok) (lit "a@b.c")
                (lit "secret") signing_in)))) login_ok eq_refl).
  - exact (proj2 (proj2 (proj2 (proj2
             (signup_outcomes (answering login_refused) (lit "a@b.c")
                (lit "secret") signing_in)))) login_refused eq_refl).
Defined.

Lemma login_outcomes_witness :
  after (login unreachable (lit "a@b.c") (lit "secret") signing_in)
  = signing_in
  /\ alerts (effects (login unreachable (lit "a@b.c") (lit "secret")
                        signing_in))
     = [lit "Server not reachable"].
Proof.
  exact (proj2 (proj2 (proj2
           (login_outcomes unreachable (lit "a@b.c") (lit "secret")
              signing_in))) eq_refl).
Defined.

Lemma login_unreadable_body_witness :
  ok not_json = true
  /\ unreadable not_json = true
  /\ after (login (answering not_json) (lit "a@b.c") (lit "secret")
              signing_in) = signing_in.
Proof.
  split; [reflexivity|]. split; [reflexivity|].
  exact (proj1 (login_unreadable_body (answering not_json) (lit "a@b.c")
                  (lit "secret") signing_in not_json
                  eq_refl eq_refl eq_refl)).
Defined.


Lemma pick_twice_witness :
  chat (ui (run_events [PressSendImage (picked (lit "file:///b.jpg"));
                        PressSendImage (picked (lit "file:///c.jpg"))]
              chatting))
  = chat (ui chatting)
    ++ [user_image (lit "file:///b.jpg"); user_image (lit "file:///c.jpg")].
Proof.
  exact (proj1 (proj2 (pick_twice (lit "file:///b.jpg") (lit "file:///c.jpg")
                         chatting eq_refl eq_refl))).
Defined.

Lemma navigation_round_trip_witness :
  run_events [PressGoBack; PressChat] chatting = chatting.
Proof.
  exact (proj1 (navigation_round_trip chatting eq_refl) eq_refl).
Defined.

Lemma store_only_gains_token_witness :
  is_Some (storage (run_events [PressLogin (answering login_ok); PressChat]
                      signing_in) !! lit "token").
Proof.
  apply (proj2 (store_only_gains_token
                  [PressLogin (answering login_ok); PressChat] signing_in)).
  exists (lit "old"). reflexivity.
Defined.

Lemma signed_in_invariant_witness :
  is_Some (storage (run_events [PressLogin (answering login_ok); PressChat]
                      initial_world) !! lit "token").
Proof.
  apply (signed_in_invariant [PressLogin (answering login_ok); PressChat]
           initial_world).
  - intros H. exfalso. apply H. reflexivity.
  - discriminate.
Defined.

Lemma session_requests_carry_token_witness :
  (exists token,
     storage (run_events [PressLogin (answering login_ok); PressChat;
                          ChangeMessage (lit "hi")] initial_world)
       !! lit "token" = Some token
     /\ headers (chat_request (Some (lit "tok123"))
                   (formData (lit "hi") None))
        = [(lit "Authorization",
            lit "Bearer "
            ++ (if bool_decide (token = []) then lit "null" else token))])
  /\ (exists token,
        storage (run_events [PressLogin (answering login_empty); PressChat;
                             ChangeMessage (lit "hi")] initial_world)
          !! lit "token" = Some token
        /\ headers (chat_request None (formData (lit "hi") None))
           = [(lit "Authorization",
               lit "Bearer "
               ++ (if bool_decide (token = []) then lit "null" else token))]).
Proof.
  split.
  - exact (session_requests_carry_token
             [PressLogin (answering login_ok); PressChat;
              ChangeMessage (lit "hi")]
             ReadResolves unreachable
             (chat_request (Some (lit "tok123")) (formData (lit "hi") None))
             (list_elem_of_here _ _)).
  - exact (session_requests_carry_token
             [PressLogin (answering login_empty); PressChat;
              ChangeMessage (lit "hi")]
             ReadResolves unreachable
             (chat_request None (formData (lit "hi") None))
             (list_elem_of_here _ _)).
Defined.

Lemma loading_never_stuck_witness :
  loading (ui (run_events [PressSend ReadResolves unreachable;
                           ChangeMessage (lit "again");
                           PressSend ReadResolves (answering not_json)]
                 chatting))
  = false.
Proof.
  exact (loading_never_stuck
           [PressSend ReadResolves unreachable; ChangeMessage (lit "again");
            PressSend ReadResolves (answering not_json)]
           chatting eq_refl eq_refl).
Defined.

Lemma rejected_read_wedges_chat_witness :
  sendable (message (ui chatting)) (image (ui chatting)) = true
  /\ screen (ui (run_events [PressGoBack; PressSend ReadResolves unreachable]
                   (step chatting (PressSend ReadRejects unreachable))))
     = Chat
  /\ loading (ui (run_events [PressGoBack;
                              PressSend ReadResolves unreachable]
                    (step chatting (PressSend ReadRejects unreachable))))
     = true.
Proof.
  split; [reflexivity|].
  destruct (rejected_read_wedges_chat unreachable
              [PressGoBack; PressSend ReadResolves unreachable] chatting
              eq_refl eq_refl eq_refl)
    as (_ & Hl & Hs & _).
  split; [exact Hs | exact Hl].
Defined.

Lemma entries_well_formed_witness :
  forallb well_formed_entry
    (chat (ui (run_events [PressSend ReadResolves unreachable;
                           PressSendImage (picked (lit "file:///b.jpg"))]
                 chatting)))
  = true.
Proof.
  exact (entries_well_formed
           [PressSend ReadResolves unreachable;
            PressSendImage (picked (lit "file:///b.jpg"))]
           chatting eq_refl).
Defined.

(** ** [ToString] at sample values *)

Example to_string_array :
  to_string (JArr [JNum (lit "1"); JNull; JStr (lit "a"); JArr [JBool true]])
  = Normal (lit "1,,a,true").
Proof. reflexivity. Qed.

Example to_string_shadowed :
  to_string (JObj [(lit "toString", JNull)]) = Throw NotPrimitive
  /\ to_string (JArr [JStr (lit "a"); JObj [(lit "toString", JNull)]])
     = Throw NotPrimitive
  /\ to_string (JObj [(lit "valueOf", JNull)])
     = Normal (lit "[object Object]").
Proof. repeat split; reflexivity. Qed.

Example read_item_empty :
  read_item {[ lit "token" := [] ]} (lit "token") = None
  /\ read_item {[ lit "token" := lit "tok123" ]} (lit "token")
     = Some (lit "tok123")
  /\ read_item ∅ (lit "token") = None.
Proof. repeat split; reflexivity. Qed.
